(** * Lacuna review widget: redaction, undo and edit reconciliation

    A shallow embedding of [flask_app/static/app.js].  The page is a record
    holding the span elements the script created (by address, so that the
    undo stack and the container alias the same element, as the script's
    object references do), the child nodes of the editable container, the
    undo stack and the other surfaces the script reads and writes.  Every
    handler of the script is a function on that record; a user session is a
    list of events folded over it. *)

From Stdlib Require Import NArith ZArith.
From stdpp Require Import base list strings sorting.

Set Default Proof Using "Type".

(** ** JavaScript strings: sequences of UTF-16 code units *)

Module Js.

Definition code_unit := N.
Definition jsstring := list N.

Definition SPACE : N := 32%N.

(** WhiteSpace and LineTerminator of ECMAScript: what [String.prototype.trim]
    strips.  All of them are in the basic plane, one code unit each. *)
Definition is_white_space (c : N) : bool :=
  (N.eqb c 9 || N.eqb c 10 || N.eqb c 11 || N.eqb c 12 || N.eqb c 13
   || N.eqb c 32 || N.eqb c 160 || N.eqb c 5760
   || (N.leb 8192 c && N.leb c 8202)
   || N.eqb c 8232 || N.eqb c 8233 || N.eqb c 8239 || N.eqb c 8287
   || N.eqb c 12288 || N.eqb c 65279)%N.

Fixpoint trim_start (s : jsstring) : jsstring :=
  match s with
  | [] => []
  | c :: s' => if is_white_space c then trim_start s' else s
  end.

Fixpoint trim_end (s : jsstring) : jsstring :=
  match s with
  | [] => []
  | c :: s' =>
      match trim_end s' with
      | [] => if is_white_space c then [] else [c]
      | r => c :: r
      end
  end.

(** [s.trim()] *)
Definition trim (s : jsstring) : jsstring := trim_end (trim_start s).

(** [s.split(sep)] for a separator of one code unit.  No segment is
    dropped: the empty string gives one empty segment. *)
Fixpoint split (sep : N) (s : jsstring) : list jsstring :=
  match s with
  | [] => [[]]
  | c :: s' =>
      if N.eqb c sep then [] :: split sep s'
      else match split sep s' with
           | w :: ws => (c :: w) :: ws
           | [] => [[c]]
           end
  end.

(** [parts.join("")] *)
Definition join_empty (parts : list jsstring) : jsstring := concat parts.

(** [parts.join(sep)] for a separator of one code unit. *)
Fixpoint join (sep : N) (parts : list jsstring) : jsstring :=
  match parts with
  | [] => []
  | [w] => w
  | w :: ws => w ++ sep :: join sep ws
  end.

(** A literal of the script, for the ASCII part of it. *)
Definition lit (s : string) : jsstring :=
  map Ascii.N_of_ascii (String.list_ascii_of_string s).

(** Values that reach a truthiness test in the script. *)
Inductive value :=
| Null
| Num (z : Z)
| Str (s : jsstring).

Definition truthy (v : value) : bool :=
  match v with
  | Null => false
  | Num z => negb (Z.eqb z 0)
  | Str s => match s with [] => false | _ => true end
  end.

(** [a || b] *)
Definition or (a b : value) : value := if truthy a then a else b.

End Js.

Import Js.

(** ** The page *)

(** A [<span>] made by [renderEditableSentence].  Its click handler is always a
    closure [() => redactWord(span, w)] over the span itself, so the handler is
    the captured word [w], or [None] for [null]. *)
Record span_element := Span {
  textContent : jsstring;
  dataset_index : option nat;
  onclick : option jsstring
}.

(** A child of the editable container: a span (by address in [heap]) or a
    text node. *)
Inductive node :=
| SpanNode (a : nat)
| TextNode (data : jsstring).

(** [{ span, original }], an entry of [undoStack]. *)
Record undo_entry := UndoEntry {
  span : nat;
  original : jsstring
}.

Inductive display := DisplayUnset | DisplayBlock | DisplayNone.

Record feedback := Feedback {
  feedback_text : jsstring;
  feedback_display : display
}.

(** The three debug fields; each shows the string form of the value. *)
Record debug_panel := DebugPanel {
  debug_id : value;
  debug_note_id : value;
  debug_index : value
}.

(** The record the provider returns for [/next-sentence/1].  An absent (or
    null) sentence is [None]. *)
Module Provider.
Record SentenceRecord := {
  id : value;
  note_id : value;
  index : Z;
  original_sentence : jsstring;
  llm_sentence : option jsstring;
  final_sentence : option jsstring
}.
End Provider.
Abbreviation SentenceRecord := Provider.SentenceRecord.

Record page := Page {
  heap : list span_element;         (* every span created so far *)
  sentenceContainer : list node;    (* childNodes of #editable-sentence *)
  originalContainer : jsstring;     (* textContent of #original-sentence *)
  stateDiv_sentenceId : value;      (* stateDiv.dataset.sentenceId *)
  undoStack : list undo_entry;      (* pushes and pops at the end *)
  currentSentenceId : value;
  edit_box_display : display;       (* #edit-box style.display *)
  sentence_edit : jsstring;         (* value of #sentence-edit *)
  feedback_message : feedback;      (* #feedback-message *)
  debug : debug_panel;
  markGood_disabled : bool          (* the submit button's disabled flag *)
}.

Definition set_heap (h : list span_element) (pg : page) : page :=
  Page h (sentenceContainer pg) (originalContainer pg) (stateDiv_sentenceId pg)
       (undoStack pg) (currentSentenceId pg) (edit_box_display pg)
       (sentence_edit pg) (feedback_message pg) (debug pg) (markGood_disabled pg).

Definition set_sentenceContainer (c : list node) (pg : page) : page :=
  Page (heap pg) c (originalContainer pg) (stateDiv_sentenceId pg)
       (undoStack pg) (currentSentenceId pg) (edit_box_display pg)
       (sentence_edit pg) (feedback_message pg) (debug pg) (markGood_disabled pg).

Definition set_originalContainer (t : jsstring) (pg : page) : page :=
  Page (heap pg) (sentenceContainer pg) t (stateDiv_sentenceId pg)
       (undoStack pg) (currentSentenceId pg) (edit_box_display pg)
       (sentence_edit pg) (feedback_message pg) (debug pg) (markGood_disabled pg).

Definition set_stateDiv_sentenceId (v : value) (pg : page) : page :=
  Page (heap pg) (sentenceContainer pg) (originalContainer pg) v
       (undoStack pg) (currentSentenceId pg) (edit_box_display pg)
       (sentence_edit pg) (feedback_message pg) (debug pg) (markGood_disabled pg).

Definition set_undoStack (u : list undo_entry) (pg : page) : page :=
  Page (heap pg) (sentenceContainer pg) (originalContainer pg) (stateDiv_sentenceId pg)
       u (currentSentenceId pg) (edit_box_display pg)
       (sentence_edit pg) (feedback_message pg) (debug pg) (markGood_disabled pg).

Definition set_currentSentenceId (v : value) (pg : page) : page :=
  Page (heap pg) (sentenceContainer pg) (originalContainer pg) (stateDiv_sentenceId pg)
       (undoStack pg) v (edit_box_display pg)
       (sentence_edit pg) (feedback_message pg) (debug pg) (markGood_disabled pg).

Definition set_edit_box_display (d : display) (pg : page) : page :=
  Page (heap pg) (sentenceContainer pg) (originalContainer pg) (stateDiv_sentenceId pg)
       (undoStack pg) (currentSentenceId pg) d
       (sentence_edit pg) (feedback_message pg) (debug pg) (markGood_disabled pg).

Definition set_sentence_edit (t : jsstring) (pg : page) : page :=
  Page (heap pg) (sentenceContainer pg) (originalContainer pg) (stateDiv_sentenceId pg)
       (undoStack pg) (currentSentenceId pg) (edit_box_display pg)
       t (feedback_message pg) (debug pg) (markGood_disabled pg).

Definition set_feedback_message (f : feedback) (pg : page) : page :=
  Page (heap pg) (sentenceContainer pg) (originalContainer pg) (stateDiv_sentenceId pg)
       (undoStack pg) (currentSentenceId pg) (edit_box_display pg)
       (sentence_edit pg) f (debug pg) (markGood_disabled pg).

Definition set_debug (d : debug_panel) (pg : page) : page :=
  Page (heap pg) (sentenceContainer pg) (originalContainer pg) (stateDiv_sentenceId pg)
       (undoStack pg) (currentSentenceId pg) (edit_box_display pg)
       (sentence_edit pg) (feedback_message pg) d (markGood_disabled pg).

Definition set_markGood_disabled (b : bool) (pg : page) : page :=
  Page (heap pg) (sentenceContainer pg) (originalContainer pg) (stateDiv_sentenceId pg)
       (undoStack pg) (currentSentenceId pg) (edit_box_display pg)
       (sentence_edit pg) (feedback_message pg) (debug pg) b.

Definition set_textContent (t : jsstring) (sp : span_element) : span_element :=
  Span t (dataset_index sp) (onclick sp).

Definition set_dataset_index (i : nat) (sp : span_element) : span_element :=
  Span (textContent sp) (Some i) (onclick sp).

Definition set_onclick (h : option jsstring) (sp : span_element) : span_element :=
  Span (textContent sp) (dataset_index sp) h.

(** A write to a field of the span at address [a]; every holder of the
    address sees it. *)
Definition update_span (a : nat) (f : span_element -> span_element) (pg : page) : page :=
  set_heap (alter f a (heap pg)) pg.

(** [node.textContent] *)
Definition node_textContent (pg : page) (n : node) : jsstring :=
  match n with
  | SpanNode a =>
      match heap pg !! a with
      | Some sp => textContent sp
      | None => []
      end
  | TextNode data => data
  end.

(** ** The handlers of the script *)

Definition REDACT : jsstring := lit "[REDACT]".

(** [document.createElement("span")]: a fresh address, an empty span. *)
Definition createElement_span (pg : page) : nat * page :=
  (length (heap pg), set_heap (heap pg ++ [Span [] None None]) pg).

(** [sentenceContainer.appendChild(n)] *)
Definition appendChild (n : node) (pg : page) : page :=
  set_sentenceContainer (sentenceContainer pg ++ [n]) pg.

(** The callback of [words.forEach((word, i) => ...)]. *)
Definition render_word (pg : page) (iw : nat * jsstring) : page :=
  let '(i, word) := iw in
  let '(a, pg) := createElement_span pg in
  let pg := update_span a (set_textContent word) pg in
  let pg := update_span a (set_dataset_index i) pg in
  let pg := update_span a (set_onclick (Some word)) pg in
  let pg := appendChild (SpanNode a) pg in
  appendChild (TextNode [SPACE]) pg.

Definition renderEditableSentence (text : jsstring) (pg : page) : page :=
  let pg := set_sentenceContainer [] pg in
  let pg := set_undoStack [] pg in
  let words := split SPACE text in
  fold_left render_word (imap pair words) pg.

Definition redactWord (a : nat) (originalWord : jsstring) (pg : page) : page :=
  let pg := set_undoStack (undoStack pg ++ [UndoEntry a originalWord]) pg in
  let pg := update_span a (set_textContent REDACT) pg in
  update_span a (set_onclick None) pg.

Definition undoRedact (pg : page) : page :=
  if Nat.eqb (length (undoStack pg)) 0 then pg
  else
    match last (undoStack pg) with
    | Some e =>
        let pg := set_undoStack (removelast (undoStack pg)) pg in
        let pg := update_span (span e) (set_textContent (original e)) pg in
        update_span (span e) (set_onclick (Some (original e))) pg
    | None => pg
    end.

(** [Array.from(sentenceContainer.childNodes).map(node => node.textContent)
      .join("").trim()], as [editSentence] and [markGood] compute it. *)
Definition container_text (pg : page) : jsstring :=
  trim (join_empty (map (node_textContent pg) (sentenceContainer pg))).

Definition editSentence (pg : page) : page :=
  let pg := set_edit_box_display DisplayBlock pg in
  let current := container_text pg in
  set_sentence_edit current pg.

Definition saveEdit (pg : page) : page :=
  let newText := trim (sentence_edit pg) in
  let pg := renderEditableSentence newText pg in
  set_edit_box_display DisplayNone pg.

Definition showFeedback (msg : jsstring) (pg : page) : page :=
  set_feedback_message (Feedback msg DisplayBlock) pg.

Definition clearFeedback (pg : page) : page :=
  set_feedback_message (Feedback [] DisplayNone) pg.

(** The feedback texts; the first code units are the pictographs U+2705,
    U+274C and U+1F4DD (a surrogate pair). *)
Definition MARKED_GOOD : jsstring := 9989%N :: lit " Sentence marked as good!".
Definition UPDATE_FAILED : jsstring := 10060%N :: lit " Failed to update sentence.".
Definition REPLACED : jsstring :=
  55357%N :: 56541%N :: lit " Replaced with original sentence.".

Definition useOriginal (pg : page) : page :=
  let originalText := trim (originalContainer pg) in
  let pg := renderEditableSentence originalText pg in
  showFeedback REPLACED pg.

(** What a [fetch] settles to: a rejection, or a response with its [ok] flag
    and the body [res.json()] resolves to ([None] when it rejects). *)
Inductive fetch_result (A : Type) :=
| NetworkError
| Response (ok : bool) (json : option A).
Arguments NetworkError {A}.
Arguments Response {A} ok json.

(** The synchronous part of [markGood]: it changes nothing on the page and
    either alerts or sends a PATCH for the current id. *)
Inductive markGood_effect :=
| AlertNoSentence
| Patch (sentence_id : value) (final_sentence : jsstring).

Definition markGood (pg : page) : markGood_effect :=
  let finalText := container_text pg in
  if negb (truthy (currentSentenceId pg)) then AlertNoSentence
  else Patch (currentSentenceId pg) finalText.

(** The promise chain of [markGood] once the request has settled.  The
    submit button is taken to exist on the page. *)
Definition markGood_settled (r : fetch_result unit) (pg : page) : page :=
  match r with
  | Response true (Some _) =>
      let pg := showFeedback MARKED_GOOD pg in
      set_markGood_disabled false pg
  | _ => showFeedback UPDATE_FAILED pg
  end.

Definition of_option (o : option jsstring) : value :=
  match o with
  | Some s => Str s
  | None => Null
  end.

(** [data.final_sentence || data.llm_sentence || data.original_sentence] *)
Definition editable_of (data : SentenceRecord) : value :=
  Js.or (Js.or (of_option (Provider.final_sentence data))
               (of_option (Provider.llm_sentence data)))
        (Str (Provider.original_sentence data)).

(** The second [then] of [loadNextSentence]. *)
Definition loadNextSentence_loaded (data : SentenceRecord) (pg : page) : page :=
  let pg := set_currentSentenceId (Provider.id data) pg in
  let pg := set_stateDiv_sentenceId (Provider.id data) pg in
  let pg := set_originalContainer (Provider.original_sentence data) pg in
  match editable_of data with
  | Str editable =>
      let pg := renderEditableSentence editable pg in
      set_debug (DebugPanel (Provider.id data) (Provider.note_id data)
                            (Num (Provider.index data))) pg
  | _ =>
      (* [text.split] throws once the container and the stack are cleared;
         not reached, the last operand being a string *)
      set_undoStack [] (set_sentenceContainer [] pg)
  end.

(** The promise chain of [loadNextSentence] once the request has settled;
    a failure only alerts. *)
Definition loadNextSentence_settled (r : fetch_result SentenceRecord) (pg : page) : page :=
  match r with
  | Response true (Some data) => loadNextSentence_loaded data pg
  | _ => pg
  end.

(** ** User sessions *)

(** The spans among the children of the container, in document order; the
    position of a word is its rank in this list. *)
Definition span_children (pg : page) : list nat :=
  omap (fun n => match n with SpanNode a => Some a | TextNode _ => None end)
       (sentenceContainer pg).

(** A click on a span runs its [onclick], when it has one. *)
Definition click_span (a : nat) (pg : page) : page :=
  match heap pg !! a with
  | Some sp =>
      match onclick sp with
      | Some word => redactWord a word pg
      | None => pg
      end
  | None => pg
  end.

(** The user activates the word at position [p]. *)
Definition click (p : nat) (pg : page) : page :=
  match span_children pg !! p with
  | Some a => click_span a pg
  | None => pg
  end.

(** What can happen on the page: the user's actions, and the settling of the
    two requests. *)
Inductive event :=
| Click (p : nat)
| UndoButton
| EditButton
| TypeText (text : jsstring)
| SaveButton
| UseOriginalButton
| MarkGoodButton
| MarkGoodSettled (r : fetch_result unit)
| LoadSettled (r : fetch_result SentenceRecord)
| ClearFeedback.

Definition step (pg : page) (e : event) : page :=
  match e with
  | Click p => click p pg
  | UndoButton => undoRedact pg
  | EditButton => editSentence pg
  | TypeText text => set_sentence_edit text pg
  | SaveButton => saveEdit pg
  | UseOriginalButton => useOriginal pg
  | MarkGoodButton => pg
  | MarkGoodSettled r => markGood_settled r pg
  | LoadSettled r => loadNextSentence_settled r pg
  | ClearFeedback => clearFeedback pg
  end.

Definition run (pg : page) (evs : list event) : page := fold_left step evs pg.

(** The page as the script finds it: [undoStack = []],
    [currentSentenceId = null], and no span of the script's in the container
    yet. *)
Definition pristine (pg : page) : Prop :=
  undoStack pg = [] /\ currentSentenceId pg = Null /\ span_children pg = [].

Definition blank_page : page :=
  Page [] [] [] Null [] Null DisplayUnset [] (Feedback [] DisplayUnset)
       (DebugPanel Null Null Null) false.

(** ** The session as the specification describes it *)

Record WordToken := {
  position : nat;
  text : jsstring;
  redacted : bool
}.

Definition token_of (pg : page) (p a : nat) : WordToken :=
  match heap pg !! a with
  | Some sp =>
      {| position := p; text := textContent sp;
         redacted := match onclick sp with None => true | Some _ => false end |}
  | None => {| position := p; text := []; redacted := false |}
  end.

Definition tokens (pg : page) : list WordToken :=
  imap (token_of pg) (span_children pg).

(** The displayed text of every word, in order. *)
Definition displayed (pg : page) : list jsstring := map text (tokens pg).

(** How often the code unit [c] occurs in [s]. *)
Definition occurrences (c : N) (s : jsstring) : nat := count_occ N.eq_dec s c.

Definition is_redacted (pg : page) (p : nat) : bool :=
  match tokens pg !! p with
  | Some tok => redacted tok
  | None => false
  end.

(** There is a token at [p] and it is not redacted. *)
Definition is_unredacted (pg : page) (p : nat) : bool :=
  match tokens pg !! p with
  | Some tok => negb (redacted tok)
  | None => false
  end.

Record RedactionEvent := {
  event_position : nat;
  original_text : jsstring
}.

(** An entry of the stack read as a RedactionEvent: the position is the one
    the script wrote to [span.dataset.index]. *)
Definition redaction_event (pg : page) (e : undo_entry) : option RedactionEvent :=
  match heap pg !! span e with
  | Some sp =>
      match dataset_index sp with
      | Some i => Some {| event_position := i; original_text := original e |}
      | None => None
      end
  | None => None
  end.

(** The undo history, most recent redaction first. *)
Definition history (pg : page) : list RedactionEvent :=
  reverse (omap (redaction_event pg) (undoStack pg)).

(** The positions of the entries of the stack, oldest first. *)
Definition stack_positions (pg : page) : list nat :=
  event_position <$> omap (redaction_event pg) (undoStack pg).

(** The events that rebuild the container. *)
Definition rebuilds (e : event) : bool :=
  match e with
  | SaveButton | UseOriginalButton | LoadSettled (Response true (Some _)) => true
  | _ => false
  end.

(** The events that neither undo a redaction nor rebuild the container. *)
Definition keeps_redactions (e : event) : bool :=
  match e with
  | UndoButton => false
  | _ => negb (rebuilds e)
  end.

(** The events that leave the display of the original sentence alone. *)
Definition keeps_original (e : event) : bool :=
  match e with
  | LoadSettled (Response true (Some _)) => false
  | _ => true
  end.

(** The token at position [p] was redacted by the [t]-th event of the session
    [evs] and has stayed redacted since. *)
Definition redacted_since (pg0 : page) (evs : list event) (p t : nat) : Prop :=
  evs !! t = Some (Click p)
  /\ is_redacted (run pg0 (take t evs)) p = false
  /\ forall k, t < k <= length evs -> is_redacted (run pg0 (take k evs)) p = true.

(** What holds of every page a session reaches. *)
Record consistent (pg : page) : Prop := {
  children_nodup : NoDup (span_children pg);
  children_alloc : forall p a, span_children pg !! p = Some a ->
    exists sp, heap pg !! a = Some sp /\ dataset_index sp = Some p;
  stack_nodup : NoDup (span <$> undoStack pg);
  stack_redacted : forall e, e ∈ undoStack pg ->
    span e ∈ span_children pg
    /\ exists sp, heap pg !! span e = Some sp /\ onclick sp = None
                  /\ textContent sp = REDACT;
  handler_word : forall a sp w, a ∈ span_children pg ->
    heap pg !! a = Some sp -> onclick sp = Some w -> textContent sp = w;
  redacted_stacked : forall a sp, a ∈ span_children pg ->
    heap pg !! a = Some sp -> onclick sp = None -> a ∈ span <$> undoStack pg
}.

(** The spans and the child nodes [renderEditableSentence] makes for a list
    of words, the first span at address [base]. *)
Definition fresh_spans (k : nat) (words : list jsstring) : list span_element :=
  imap (fun i w => Span w (Some (k + i)) (Some w)) words.

Definition fresh_nodes (base n : nat) : list node :=
  flat_map (fun a => [SpanNode a; TextNode [SPACE]]) (seq base n).

(** ** The specification's reading of [load] *)

(** The precedence as the specification words it: a sentence counts as soon
    as it is present. *)
Definition spec_initial_text (data : SentenceRecord) : jsstring :=
  match Provider.final_sentence data with
  | Some f => f
  | None =>
      match Provider.llm_sentence data with
      | Some l => l
      | None => Provider.original_sentence data
      end
  end.

(** The precedence with "present" read as "present and not empty". *)
Definition nonempty_initial_text (data : SentenceRecord) : jsstring :=
  match Provider.final_sentence data with
  | Some (c :: f) => c :: f
  | _ =>
      match Provider.llm_sentence data with
      | Some (c :: l) => c :: l
      | _ => Provider.original_sentence data
      end
  end.

(** A settled request that did not succeed: a transport error, a response
    that is not ok, or a body that is not JSON. *)
Definition failed {A} (r : fetch_result A) : bool :=
  match r with
  | Response true (Some _) => false
  | _ => true
  end.

(** ** A sample session: the record of the specification's end-to-end test *)

Definition sample_record : SentenceRecord :=
  {| Provider.id := Num 7; Provider.note_id := Num 3; Provider.index := 0;
     Provider.original_sentence := lit "The cat sat";
     Provider.llm_sentence := None; Provider.final_sentence := None |}.

Definition sample_page : page :=
  run blank_page [LoadSettled (Response true (Some sample_record))].

(** A record whose final sentence is present and empty. *)
Definition empty_final_record : SentenceRecord :=
  {| Provider.id := Num 8; Provider.note_id := Num 3; Provider.index := 1;
     Provider.original_sentence := lit "The cat sat";
     Provider.llm_sentence := Some (lit "A cat sat");
     Provider.final_sentence := Some [] |}.

(** Everything on the page but the spans, the child nodes of the container
    and the undo stack. *)
Definition surfaces (pg : page) :=
  (originalContainer pg, stateDiv_sentenceId pg, currentSentenceId pg,
   edit_box_display pg, sentence_edit pg, feedback_message pg, debug pg,
   markGood_disabled pg).

(** ** Further readings of the page *)

(** The container holds its spans in order, each followed by the one-space
    text node [renderEditableSentence] appends after it. *)
Definition interleaved (pg : page) : Prop :=
  sentenceContainer pg
  = flat_map (fun a => [SpanNode a; TextNode [SPACE]]) (span_children pg).

(** The text an event hands to [renderEditableSentence], when it calls it. *)
Definition rendered_text (pg : page) (e : event) : option jsstring :=
  match e with
  | SaveButton => Some (trim (sentence_edit pg))
  | UseOriginalButton => Some (trim (originalContainer pg))
  | LoadSettled (Response true (Some data)) =>
      match editable_of data with
      | Str editable => Some editable
      | _ => None
      end
  | _ => None
  end.

(** The page shows the rendering of [words]: one span per word, a clickable
    span carrying its word in its handler, a redacted one carrying it in its
    entry of the stack. *)
Record shows (words : list jsstring) (pg : page) : Prop := {
  shows_consistent : consistent pg;
  shows_interleaved : interleaved pg;
  shows_length : length (span_children pg) = length words;
  shows_clickable : forall p a sp w, span_children pg !! p = Some a ->
    heap pg !! a = Some sp -> onclick sp = Some w -> words !! p = Some w;
  shows_stacked : forall p e, e ∈ undoStack pg ->
    span_children pg !! p = Some (span e) -> words !! p = Some (original e)
}.

(** The record of the last load that succeeded, if any. *)
Fixpoint last_loaded (evs : list event) : option SentenceRecord :=
  match evs with
  | [] => None
  | e :: evs' =>
      match last_loaded evs' with
      | Some data => Some data
      | None =>
          match e with
          | LoadSettled (Response true (Some data)) => Some data
          | _ => None
          end
      end
  end.

(** The surfaces [loadNextSentence] writes besides the container. *)
Definition record_surfaces (pg : page) :=
  (currentSentenceId pg, stateDiv_sentenceId pg, originalContainer pg, debug pg).

Definition surfaces_of (data : SentenceRecord) :=
  (Provider.id data, Provider.id data, Provider.original_sentence data,
   DebugPanel (Provider.id data) (Provider.note_id data)
              (Num (Provider.index data))).

(** The events that write the feedback message. *)
Definition writes_feedback (e : event) : bool :=
  match e with
  | UseOriginalButton | MarkGoodSettled _ | ClearFeedback => true
  | _ => false
  end.

(** The positions of the redacted tokens, in order. *)
Definition redacted_positions (pg : page) : list nat :=
  filter (fun p => is_redacted pg p = true) (seq 0 (length (tokens pg))).

(** A record whose id is the number 0. *)
Definition zero_id_record : SentenceRecord :=
  {| Provider.id := Num 0; Provider.note_id := Num 3; Provider.index := 2;
     Provider.original_sentence := lit "The cat sat";
     Provider.llm_sentence := None; Provider.final_sentence := None |}.

(** The feedback an event writes. *)
Definition feedback_of (e : event) : feedback :=
  match e with
  | UseOriginalButton => Feedback REPLACED DisplayBlock
  | MarkGoodSettled r =>
      Feedback (if failed r then UPDATE_FAILED else MARKED_GOOD) DisplayBlock
  | _ => Feedback [] DisplayNone
  end.

(** * Facts about strings *)

Section StringFacts.

Variable sep : N.

Lemma split_not_nil s : split sep s <> [].
Proof.
  destruct s as [|c s]; simpl; [done|].
  destruct (N.eqb c sep); [done|].
  destruct (split sep s); done.
Qed.

Lemma split_cons_sep s : split sep (sep :: s) = [] :: split sep s.
Proof. simpl. by rewrite N.eqb_refl. Qed.

Lemma split_cons_other c s :
  c <> sep ->
  exists w ws, split sep s = w :: ws /\ split sep (c :: s) = (c :: w) :: ws.
Proof.
  intros Hc. simpl. apply N.eqb_neq in Hc. rewrite Hc.
  destruct (split sep s) as [|w ws] eqn:E.
  - by apply split_not_nil in E.
  - by exists w, ws.
Qed.

Lemma length_split s : length (split sep s) = S (occurrences sep s).
Proof.
  unfold occurrences.
  induction s as [|c s IH]; [done|].
  destruct (N.eq_dec c sep) as [->|Hc].
  - rewrite split_cons_sep. simpl. rewrite IH.
    destruct (N.eq_dec sep sep); [done|congruence].
  - destruct (split_cons_other c s Hc) as (w & ws & E1 & E2).
    rewrite E2. rewrite E1 in IH. simpl in *.
    destruct (N.eq_dec c sep); [congruence|done].
Qed.

Lemma join_cons w ws :
  ws <> [] -> join sep (w :: ws) = w ++ sep :: join sep ws.
Proof. destruct ws; [done|]. done. Qed.

Lemma join_split s : join sep (split sep s) = s.
Proof.
  induction s as [|c s IH]; [done|].
  destruct (N.eq_dec c sep) as [->|Hc].
  - rewrite split_cons_sep, join_cons by apply split_not_nil.
    by rewrite IH.
  - destruct (split_cons_other c s Hc) as (w & ws & E1 & E2).
    rewrite E2. rewrite E1 in IH.
    destruct ws as [|w' ws]; simpl in *; congruence.
Qed.

Lemma split_app_sep s1 s2 :
  split sep (s1 ++ sep :: s2) = split sep s1 ++ split sep s2.
Proof.
  induction s1 as [|c s1 IH].
  - simpl. by rewrite N.eqb_refl.
  - destruct (N.eq_dec c sep) as [->|Hc].
    + change ((sep :: s1) ++ sep :: s2) with (sep :: (s1 ++ sep :: s2)).
      rewrite !split_cons_sep, IH. done.
    + change ((c :: s1) ++ sep :: s2) with (c :: (s1 ++ sep :: s2)).
      destruct (split_cons_other c s1 Hc) as (w & ws & E1 & E2).
      destruct (split_cons_other c (s1 ++ sep :: s2) Hc) as (w' & ws' & E1' & E2').
      rewrite E2, E2'. rewrite IH, E1 in E1'. simpl in E1'.
      by injection E1' as <- <-.
Qed.

(** A run of [S n] separators between [s1] and [s2] leaves [n] empty
    segments between the segments of [s1] and those of [s2]. *)
Lemma split_run s1 s2 n :
  split sep (s1 ++ replicate (S n) sep ++ s2)
  = split sep s1 ++ replicate n [] ++ split sep s2.
Proof.
  revert s1. induction n as [|n IH]; intros s1.
  - simpl. apply split_app_sep.
  - change (replicate (S (S n)) sep ++ s2)
      with (sep :: (replicate (S n) sep ++ s2)).
    rewrite split_app_sep.
    specialize (IH []). simpl in IH. simpl. rewrite N.eqb_refl.
    simpl in IH. rewrite N.eqb_refl in IH. by rewrite IH.
Qed.


Lemma split_segments_free s : Forall (fun w => sep ∉ w) (split sep s).
Proof.
  induction s as [|c s IH].
  - constructor; [apply not_elem_of_nil|constructor].
  - destruct (N.eq_dec c sep) as [->|Hc].
    + rewrite split_cons_sep. constructor; [apply not_elem_of_nil|done].
    + destruct (split_cons_other c s Hc) as (w & ws & E1 & E2).
      rewrite E2. rewrite E1 in IH. inversion IH; subst.
      constructor; [|done]. apply not_elem_of_cons. split; [congruence|done].
Qed.

End StringFacts.

Lemma is_white_space_SPACE : is_white_space SPACE = true.
Proof. reflexivity. Qed.

Lemma trim_start_head s :
  trim_start s = [] \/ exists c r, trim_start s = c :: r /\ is_white_space c = false.
Proof.
  induction s as [|c s IH]; [by left|].
  simpl. destruct (is_white_space c) eqn:E; [done|].
  right. by exists c, s.
Qed.

Lemma trim_end_snoc_space s c :
  is_white_space c = true -> trim_end (s ++ [c]) = trim_end s.
Proof.
  intros Hc. induction s as [|d s IH]; simpl.
  - by rewrite Hc.
  - by rewrite IH.
Qed.

Lemma trim_end_idemp s : trim_end (trim_end s) = trim_end s.
Proof.
  induction s as [|c s IH]; [done|].
  simpl. destruct (trim_end s) as [|d r] eqn:E.
  - destruct (is_white_space c) eqn:Ec; simpl; [done|by rewrite Ec].
  - simpl. simpl in IH. rewrite IH. done.
Qed.

Lemma trim_end_cons_keep c s :
  is_white_space c = false -> exists r, trim_end (c :: s) = c :: r.
Proof.
  intros Hc. simpl. destruct (trim_end s) as [|d r].
  - rewrite Hc. by exists [].
  - by exists (d :: r).
Qed.

Lemma trim_start_trim s : trim_start (trim s) = trim s.
Proof.
  unfold trim. destruct (trim_start_head s) as [->|(c & r & -> & Hc)]; [done|].
  destruct (trim_end_cons_keep c r Hc) as [r' ->]. simpl. by rewrite Hc.
Qed.


(** A trimmed text followed by one space trims back to itself. *)
Lemma trim_trim_space s : trim (trim s ++ [SPACE]) = trim s.
Proof.
  pose proof (trim_start_trim s) as Hs.
  destruct (trim s) as [|c r] eqn:E; [done|].
  assert (Hc : is_white_space c = false).
  { simpl in Hs. destruct (is_white_space c) eqn:Ec; [|done].
    exfalso.
    assert (length (trim_start r) <= length r) as Hlen.
    { clear. induction r as [|d r IH]; simpl; [lia|].
      destruct (is_white_space d); simpl; lia. }
    rewrite Hs in Hlen. simpl in Hlen. lia. }
  unfold trim. change ((c :: r) ++ [SPACE]) with (c :: (r ++ [SPACE])).
  cbn [trim_start]. rewrite Hc.
  change (c :: (r ++ [SPACE])) with ((c :: r) ++ [SPACE]).
  rewrite trim_end_snoc_space by apply is_white_space_SPACE.
  rewrite <- E. unfold trim. apply trim_end_idemp.
Qed.

(** * Facts about the handlers *)

Lemma update_span_fresh f sp pg :
  update_span (length (heap pg)) f (set_heap (heap pg ++ [sp]) pg)
  = set_heap (heap pg ++ [f sp]) pg.
Proof.
  unfold update_span, set_heap; simpl. f_equal.
  replace (length (heap pg)) with (length (heap pg) + 0) by lia.
  by rewrite alter_app_r.
Qed.

Lemma render_word_eq pg i word :
  render_word pg (i, word)
  = set_sentenceContainer
      (sentenceContainer pg ++ [SpanNode (length (heap pg)); TextNode [SPACE]])
      (set_heap (heap pg ++ [Span word (Some i) (Some word)]) pg).
Proof.
  unfold render_word, createElement_span.
  rewrite !update_span_fresh.
  unfold appendChild, set_sentenceContainer, set_heap; simpl.
  by rewrite <- app_assoc.
Qed.

Lemma fresh_nodes_S base n :
  fresh_nodes base (S n)
  = SpanNode base :: TextNode [SPACE] :: fresh_nodes (S base) n.
Proof. reflexivity. Qed.

Lemma render_words_eq words : forall k pg,
  fold_left render_word (imap (fun i w => (k + i, w)) words) pg
  = set_sentenceContainer
      (sentenceContainer pg ++ fresh_nodes (length (heap pg)) (length words))
      (set_heap (heap pg ++ fresh_spans k words) pg).
Proof.
  induction words as [|w words IH]; intros k pg.
  - simpl. unfold fresh_nodes, fresh_spans; simpl. rewrite !app_nil_r.
    by destruct pg.
  - rewrite imap_cons. cbn [fold_left]. rewrite render_word_eq.
    assert (imap ((fun i w => (k + i, w)) ∘ S) words
            = imap (fun i w => (S k + i, w)) words) as ->
      by (apply imap_ext; intros; simpl; f_equal; lia).
    rewrite IH. unfold set_sentenceContainer, set_heap; simpl.
    rewrite length_app; simpl. rewrite Nat.add_1_r.
    rewrite fresh_nodes_S. unfold fresh_spans. rewrite imap_cons.
    assert (imap ((fun i w => Span w (Some (k + i)) (Some w)) ∘ S) words
            = imap (fun i w => Span w (Some (S k + i)) (Some w)) words) as ->
      by (apply imap_ext; intros; simpl; repeat f_equal; lia).
    rewrite Nat.add_0_r, <- !app_assoc. done.
Qed.

(** [renderEditableSentence] in closed form: fresh spans, one per segment,
    each followed by a one-space text node; an empty stack; the rest of the
    page as it was. *)
Lemma renderEditableSentence_eq text pg :
  renderEditableSentence text pg
  = set_sentenceContainer
      (fresh_nodes (length (heap pg)) (length (split SPACE text)))
      (set_heap (heap pg ++ fresh_spans 0 (split SPACE text))
         (set_undoStack [] pg)).
Proof.
  unfold renderEditableSentence.
  change (imap pair (split SPACE text))
    with (imap (fun i w => (0 + i, w)) (split SPACE text)).
  rewrite render_words_eq. done.
Qed.

Lemma fresh_spans_cons k w words :
  fresh_spans k (w :: words) = Span w (Some k) (Some w) :: fresh_spans (S k) words.
Proof.
  unfold fresh_spans. rewrite imap_cons, Nat.add_0_r. f_equal.
  apply imap_ext; intros; simpl; repeat f_equal; lia.
Qed.

Lemma length_fresh_spans k words : length (fresh_spans k words) = length words.
Proof. apply length_imap. Qed.

Lemma lookup_fresh_spans k words i :
  fresh_spans k words !! i
  = (fun w => Span w (Some (k + i)) (Some w)) <$> words !! i.
Proof. unfold fresh_spans. by rewrite list_lookup_imap. Qed.

Lemma span_children_fresh_nodes pg base n :
  sentenceContainer pg = fresh_nodes base n -> span_children pg = seq base n.
Proof.
  unfold span_children. intros ->. revert base.
  induction n as [|n IH]; intros base; [done|].
  rewrite fresh_nodes_S. simpl. by rewrite IH.
Qed.

Lemma join_empty_fresh words : forall k h pg,
  heap pg = h ++ fresh_spans k words ->
  join_empty (map (node_textContent pg) (fresh_nodes (length h) (length words)))
  = concat (map (fun w => w ++ [SPACE]) words).
Proof.
  unfold join_empty.
  induction words as [|w words IH]; intros k h pg Hh; [done|].
  rewrite fresh_spans_cons in Hh.
  cbn [length]. rewrite fresh_nodes_S. cbn [map concat node_textContent].
  assert (heap pg !! length h = Some (Span w (Some k) (Some w))) as ->.
  { rewrite Hh. by rewrite list_lookup_middle. }
  cbn [textContent]. rewrite <- app_assoc. f_equal. f_equal.
  rewrite <- (IH (S k) (h ++ [Span w (Some k) (Some w)]) pg).
  - rewrite length_app. simpl. by rewrite Nat.add_1_r.
  - by rewrite <- app_assoc.
Qed.

Lemma concat_with_sep sep words :
  words <> [] ->
  concat (map (fun w => w ++ [sep]) words) = join sep words ++ [sep].
Proof.
  induction words as [|w words IH]; [done|]. intros _.
  destruct words as [|w' words].
  - simpl. by rewrite app_nil_r.
  - rewrite join_cons by done. rewrite map_cons, concat_cons, IH by done.
    by rewrite <- !app_assoc.
Qed.

(** What [editSentence] and [markGood] read back right after a rendering:
    the rendered text and the separator after its last word, trimmed. *)
Lemma container_text_render text pg :
  container_text (renderEditableSentence text pg) = trim (text ++ [SPACE]).
Proof.
  unfold container_text. rewrite renderEditableSentence_eq.
  cbn [sentenceContainer set_sentenceContainer].
  erewrite (join_empty_fresh _ 0 (heap pg)) by reflexivity.
  rewrite concat_with_sep by apply split_not_nil.
  by rewrite join_split.
Qed.

Lemma redactWord_eq a w pg :
  redactWord a w pg
  = set_heap (alter (fun sp => Span REDACT (dataset_index sp) None) a (heap pg))
      (set_undoStack (undoStack pg ++ [UndoEntry a w]) pg).
Proof.
  unfold redactWord, update_span, set_heap, set_undoStack; simpl.
  by rewrite list_alter_alter_eq.
Qed.

Lemma undoRedact_empty pg : undoStack pg = [] -> undoRedact pg = pg.
Proof. unfold undoRedact. by intros ->. Qed.

Lemma undoRedact_eq pg st e :
  undoStack pg = st ++ [e] ->
  undoRedact pg
  = set_heap (alter (fun sp => Span (original e) (dataset_index sp)
                                    (Some (original e))) (span e) (heap pg))
      (set_undoStack st pg).
Proof.
  intros Hst. unfold undoRedact. rewrite Hst, last_snoc, removelast_last.
  rewrite length_app. simpl. rewrite Nat.add_1_r. cbn [Nat.eqb].
  unfold update_span, set_heap, set_undoStack; simpl.
  by rewrite list_alter_alter_eq.
Qed.

(** * The invariant of sessions *)

Lemma consistent_same pg pg' :
  heap pg' = heap pg -> sentenceContainer pg' = sentenceContainer pg ->
  undoStack pg' = undoStack pg -> consistent pg -> consistent pg'.
Proof.
  intros Hh Hc Hu [H1 H2 H3 H4 H5 H6].
  split; unfold span_children in *; rewrite ?Hh, ?Hc, ?Hu; assumption.
Qed.

Lemma consistent_cleared pg :
  undoStack pg = [] -> span_children pg = [] -> consistent pg.
Proof.
  intros Hu Hc. split; rewrite ?Hu, ?Hc.
  - constructor.
  - intros p a Hp. by rewrite lookup_nil in Hp.
  - constructor.
  - intros e He. by apply elem_of_nil in He.
  - intros a sp w Ha. by apply elem_of_nil in Ha.
  - intros a sp Ha. by apply elem_of_nil in Ha.
Qed.

Lemma consistent_pristine pg : pristine pg -> consistent pg.
Proof. intros (Hu & _ & Hc). by apply consistent_cleared. Qed.

Lemma lookup_rendered text pg p a :
  span_children (renderEditableSentence text pg) !! p = Some a ->
  exists w, split SPACE text !! p = Some w
            /\ a = length (heap pg) + p
            /\ heap (renderEditableSentence text pg) !! a
               = Some (Span w (Some p) (Some w)).
Proof.
  rewrite renderEditableSentence_eq.
  erewrite span_children_fresh_nodes by reflexivity.
  intros [-> Hp]%lookup_seq.
  destruct (lookup_lt_is_Some_2 (split SPACE text) p Hp) as [w Hw].
  exists w. split; [done|]. split; [done|].
  cbn [heap set_sentenceContainer set_heap].
  rewrite lookup_app_r by lia.
  replace (length (heap pg) + p - length (heap pg)) with p by lia.
  by rewrite lookup_fresh_spans, Hw.
Qed.

Lemma undoStack_render text pg : undoStack (renderEditableSentence text pg) = [].
Proof. by rewrite renderEditableSentence_eq. Qed.

Lemma consistent_render text pg : consistent (renderEditableSentence text pg).
Proof.
  split; rewrite ?undoStack_render.
  - rewrite renderEditableSentence_eq.
    erewrite span_children_fresh_nodes by reflexivity. apply NoDup_seq.
  - intros p a Hp. apply lookup_rendered in Hp as (w & _ & _ & Hw). eauto.
  - constructor.
  - intros e He. by apply elem_of_nil in He.
  - intros a sp w [p Hp]%list_elem_of_lookup_1 Hsp Hw.
    apply lookup_rendered in Hp as (w' & _ & _ & Hw').
    rewrite Hw' in Hsp. injection Hsp as <-. simpl in *. congruence.
  - intros a sp [p Hp]%list_elem_of_lookup_1 Hsp Hw.
    apply lookup_rendered in Hp as (w' & _ & _ & Hw').
    rewrite Hw' in Hsp. injection Hsp as <-. done.
Qed.

Lemma stacked_not_clickable pg a sp w :
  consistent pg -> heap pg !! a = Some sp -> onclick sp = Some w ->
  a ∉ span <$> undoStack pg.
Proof.
  intros Hc Hsp Hw (e & -> & He)%list_elem_of_fmap.
  destruct (stack_redacted pg Hc e He) as (_ & sp' & Hsp' & Hnone & _).
  congruence.
Qed.

Lemma consistent_redactWord pg a sp w :
  consistent pg -> a ∈ span_children pg -> heap pg !! a = Some sp ->
  onclick sp = Some w -> consistent (redactWord a w pg).
Proof.
  intros Hc Ha Hsp Hw. rewrite redactWord_eq.
  pose proof (stacked_not_clickable pg a sp w Hc Hsp Hw) as Hfresh.
  destruct Hc as [H1 H2 H3 H4 H5 H6].
  split; unfold span_children in *;
    cbn [heap sentenceContainer undoStack set_heap set_undoStack].
  - done.
  - intros p b Hb. destruct (H2 p b Hb) as (sp' & Hsp' & Hidx).
    rewrite list_lookup_alter. case_decide as Hab.
    + subst b. rewrite Hsp'. simpl. eauto.
    + eauto.
  - rewrite fmap_app. apply NoDup_app. split; [done|]. split.
    + intros x Hx ->%list_elem_of_singleton. done.
    + apply NoDup_singleton.
  - intros e [He| ->%list_elem_of_singleton]%elem_of_app.
    + destruct (H4 e He) as (Hin & sp' & Hsp' & Hn & Ht).
      split; [done|]. exists sp'. rewrite list_lookup_alter_ne; [done|].
      intros ->. apply Hfresh. by apply list_elem_of_fmap_2.
    + simpl. split; [done|]. rewrite list_lookup_alter_eq, Hsp. simpl. eauto.
  - intros b sp' w' Hb. rewrite list_lookup_alter. case_decide as Hab.
    + subst b. rewrite Hsp. simpl. intros [= <-]. done.
    + eauto.
  - intros b sp' Hb. rewrite list_lookup_alter, fmap_app, elem_of_app.
    case_decide as Hab.
    + subst b. intros _ _. right. by apply list_elem_of_singleton.
    + intros Hsp' Hn. left. eauto.
Qed.

Lemma consistent_undoRedact pg : consistent pg -> consistent (undoRedact pg).
Proof.
  intros Hc. destruct (undoStack pg) as [|e0 st0] eqn:Hst using rev_ind.
  - by rewrite undoRedact_empty.
  - clear IHst0. rename st0 into st, e0 into e.
    rewrite (undoRedact_eq pg st e Hst).
    destruct Hc as [H1 H2 H3 H4 H5 H6]. rewrite Hst in *.
    rewrite fmap_app in H3. apply NoDup_app in H3 as (H3 & Hnot & _).
    assert (Htop : span e ∉ span <$> st).
    { intros Hin. apply (Hnot _ Hin). by apply list_elem_of_singleton. }
    split; unfold span_children in *;
      cbn [heap sentenceContainer undoStack set_heap set_undoStack].
    + done.
    + intros p b Hb. destruct (H2 p b Hb) as (sp' & Hsp' & Hidx).
      rewrite list_lookup_alter. case_decide as Hab.
      * subst b. rewrite Hsp'. simpl. eauto.
      * eauto.
    + done.
    + intros e' He'.
      destruct (H4 e') as (Hin & sp' & Hsp' & Hn & Ht).
      { apply elem_of_app. by left. }
      split; [done|]. exists sp'. rewrite list_lookup_alter_ne; [done|].
      intros Heq. apply Htop. rewrite Heq. by apply list_elem_of_fmap_2.
    + intros b sp' w' Hb. rewrite list_lookup_alter. case_decide as Hab.
      * subst b. destruct (heap pg !! span e); simpl; [|done].
        intros [= <-]. simpl. congruence.
      * eauto.
    + intros b sp' Hb. rewrite list_lookup_alter. case_decide as Hab.
      * subst b. destruct (heap pg !! span e); simpl; [|done].
        intros [= <-]. done.
      * intros Hsp' Hn. specialize (H6 b sp' Hb Hsp' Hn).
        rewrite fmap_app, elem_of_app in H6. destruct H6 as [H6|H6]; [done|].
        apply list_elem_of_singleton in H6. simpl in H6. congruence.
Qed.

Lemma consistent_click pg p : consistent pg -> consistent (click p pg).
Proof.
  intros Hc. unfold click.
  destruct (span_children pg !! p) as [a|] eqn:Hp; [|done].
  unfold click_span.
  destruct (heap pg !! a) as [sp|] eqn:Hsp; [|done].
  destruct (onclick sp) as [w|] eqn:Hw; [|done].
  eapply consistent_redactWord; eauto. by eapply list_elem_of_lookup_2.
Qed.

Lemma consistent_loaded data pg : consistent (loadNextSentence_loaded data pg).
Proof.
  unfold loadNextSentence_loaded.
  destruct (editable_of data) as [|z|text].
  - by apply consistent_cleared.
  - by apply consistent_cleared.
  - eapply consistent_same; [| | |apply (consistent_render text)]; reflexivity.
Qed.

Lemma consistent_step pg e : consistent pg -> consistent (step pg e).
Proof.
  intros Hc. destruct e as [p| | |text| | | |r|r|]; cbn [step].
  - by apply consistent_click.
  - by apply consistent_undoRedact.
  - by eapply consistent_same; [| | |exact Hc].
  - by eapply consistent_same; [| | |exact Hc].
  - eapply consistent_same; [| | |apply (consistent_render (trim (sentence_edit pg)))];
      reflexivity.
  - eapply consistent_same;
      [| | |apply (consistent_render (trim (originalContainer pg)))]; reflexivity.
  - done.
  - destruct r as [|[] [[]|]]; by eapply consistent_same; [| | |exact Hc].
  - destruct r as [|[] [data|]]; cbn [loadNextSentence_settled]; try done.
    apply consistent_loaded.
  - by eapply consistent_same; [| | |exact Hc].
Qed.

Lemma run_app pg evs1 evs2 : run pg (evs1 ++ evs2) = run (run pg evs1) evs2.
Proof. apply fold_left_app. Qed.

Lemma run_snoc pg evs e : run pg (evs ++ [e]) = step (run pg evs) e.
Proof. by rewrite run_app. Qed.

Lemma consistent_run pg evs : consistent pg -> consistent (run pg evs).
Proof.
  revert pg. induction evs as [|e evs IH]; intros pg Hc; [done|].
  simpl. apply IH. by apply consistent_step.
Qed.

Lemma reachable_consistent pg0 evs : pristine pg0 -> consistent (run pg0 evs).
Proof. intros H. by apply consistent_run, consistent_pristine. Qed.

(** * Tokens *)

Lemma tokens_lookup pg p :
  tokens pg !! p = token_of pg p <$> span_children pg !! p.
Proof. unfold tokens. apply list_lookup_imap. Qed.

Lemma length_tokens pg : length (tokens pg) = length (span_children pg).
Proof. unfold tokens. apply length_imap. Qed.

Lemma length_span_children_render text pg :
  length (span_children (renderEditableSentence text pg))
  = length (split SPACE text).
Proof.
  rewrite renderEditableSentence_eq.
  erewrite span_children_fresh_nodes by reflexivity. apply length_seq.
Qed.

(** After a rendering there is one unredacted token per segment, showing
    that segment. *)
Lemma tokens_render txt pg :
  tokens (renderEditableSentence txt pg)
  = imap (fun i w => {| position := i; text := w; redacted := false |})
         (split SPACE txt).
Proof.
  apply list_eq. intros p. rewrite tokens_lookup, list_lookup_imap.
  destruct (span_children (renderEditableSentence txt pg) !! p) as [a|] eqn:Hp.
  - apply lookup_rendered in Hp as (w & Hw & _ & Hsp).
    rewrite Hw. simpl. unfold token_of. by rewrite Hsp.
  - apply lookup_ge_None_1 in Hp. rewrite length_span_children_render in Hp.
    apply lookup_ge_None_2 in Hp. by rewrite Hp.
Qed.

Lemma displayed_render txt pg :
  displayed (renderEditableSentence txt pg) = split SPACE txt.
Proof.
  unfold displayed. rewrite tokens_render.
  apply list_eq. intros p.
  change (map text) with (fmap (M:=list) text).
  rewrite list_lookup_fmap, list_lookup_imap.
  by destruct (split SPACE txt !! p).
Qed.

(** * Rendering and committing *)

(** C6: [renderEditableSentence(txt)] shows exactly the segments of [txt]
    between single spaces, none filtered out; the tokens are numbered from 0
    and none is redacted; their number is the number of spaces in [txt]
    plus one; and a run of [n + 1] spaces between two texts leaves [n] empty
    tokens between the tokens of the one and those of the other. *)
Theorem render_splits_on_single_spaces (txt : jsstring) (pg : page) :
  displayed (renderEditableSentence txt pg) = split SPACE txt
  /\ tokens (renderEditableSentence txt pg)
     = imap (fun i w => {| position := i; text := w; redacted := false |})
            (split SPACE txt)
  /\ length (tokens (renderEditableSentence txt pg)) = occurrences SPACE txt + 1
  /\ Forall (fun w => SPACE ∉ w) (displayed (renderEditableSentence txt pg))
  /\ forall (u v : jsstring) (n : nat),
       displayed (renderEditableSentence (u ++ replicate (S n) SPACE ++ v) pg)
       = split SPACE u ++ replicate n [] ++ split SPACE v.
Proof.
  split; [apply displayed_render|].
  split; [apply tokens_render|].
  split.
  { rewrite length_tokens, length_span_children_render, length_split. lia. }
  split.
  { rewrite displayed_render. apply split_segments_free. }
  intros u v n. rewrite displayed_render. apply split_run.
Qed.

(** C5: committing an edit of [txt] and reading the container back at once,
    as [editSentence] and [markGood] do (the text of every child node, the
    separators included, joined and trimmed), gives [txt.trim()]. *)
Theorem commit_then_read_back (txt : jsstring) (pg : page) :
  let committed := run pg [TypeText txt; SaveButton] in
  container_text committed = trim txt
  /\ sentence_edit (editSentence committed) = trim txt
  /\ displayed committed = split SPACE (trim txt).
Proof.
  cbn [run fold_left step].
  assert (H : container_text (saveEdit (set_sentence_edit txt pg)) = trim txt).
  { unfold saveEdit. cbn [sentence_edit set_sentence_edit].
    transitivity (container_text
                    (renderEditableSentence (trim txt) (set_sentence_edit txt pg))).
    - reflexivity.
    - rewrite container_text_render. apply trim_trim_space. }
  split; [exact H|]. split.
  - unfold editSentence. cbn [sentence_edit set_sentence_edit].
    etransitivity; [|exact H]. reflexivity.
  - unfold saveEdit. cbn [sentence_edit set_sentence_edit].
    etransitivity; [|apply displayed_render]. reflexivity.
Qed.

(** C7: whatever the session was, once an edit is committed the undo stack
    is empty, so is the history, and an undo right after it changes nothing
    on the page. *)
Theorem commit_clears_history (pg0 : page) (evs : list event) (newText : jsstring) :
  let committed := run pg0 (evs ++ [TypeText newText; SaveButton]) in
  undoStack committed = []
  /\ history committed = []
  /\ undoRedact committed = committed
  /\ run pg0 (evs ++ [TypeText newText; SaveButton; UndoButton]) = committed.
Proof.
  cbn zeta. rewrite !run_app. cbn [run fold_left step].
  set (pg := run pg0 evs).
  assert (H : undoStack (saveEdit (set_sentence_edit newText pg)) = []).
  { unfold saveEdit. cbn [undoStack set_edit_box_display].
    apply undoStack_render. }
  split; [exact H|]. split.
  - unfold history. by rewrite H.
  - split; by apply undoRedact_empty.
Qed.

(** * What a click and an undo leave alone *)

Lemma click_shape pg p :
  exists h u, click p pg = set_heap h (set_undoStack u pg)
              /\ length h = length (heap pg).
Proof.
  unfold click, click_span.
  destruct (span_children pg !! p) as [a|];
    [destruct (heap pg !! a) as [sp|]; [destruct (onclick sp) as [w|]|]|].
  2-4: exists (heap pg), (undoStack pg); by destruct pg.
  rewrite redactWord_eq. eexists _, _. split; [reflexivity|].
  apply length_alter.
Qed.

Lemma undoRedact_shape pg :
  exists h u, undoRedact pg = set_heap h (set_undoStack u pg)
              /\ length h = length (heap pg).
Proof.
  destruct (undoStack pg) as [|e st] eqn:Hst using rev_ind.
  - rewrite undoRedact_empty by done.
    exists (heap pg), (undoStack pg); by destruct pg.
  - rewrite (undoRedact_eq pg st e Hst). eexists _, _. split; [reflexivity|].
    apply length_alter.
Qed.

Lemma originalContainer_step pg e :
  keeps_original e = true -> originalContainer (step pg e) = originalContainer pg.
Proof.
  destruct e as [p| | |t| | | |r|r|]; cbn [step]; intros He; try done.
  - destruct (click_shape pg p) as (h & u & -> & _). done.
  - destruct (undoRedact_shape pg) as (h & u & -> & _). done.
  - unfold saveEdit. by rewrite renderEditableSentence_eq.
  - unfold useOriginal. by rewrite renderEditableSentence_eq.
  - by destruct r as [|[] [[]|]].
  - by destruct r as [|[] [data|]].
Qed.

Lemma originalContainer_run evs : forall pg,
  Forall (fun e => keeps_original e = true) evs ->
  originalContainer (run pg evs) = originalContainer pg.
Proof.
  induction evs as [|e evs IH]; intros pg Hall; [done|].
  inversion Hall; subst. simpl. rewrite IH by done.
  by apply originalContainer_step.
Qed.

Lemma editable_of_nonempty data :
  editable_of data = Str (nonempty_initial_text data).
Proof.
  unfold editable_of, nonempty_initial_text, Js.or.
  destruct data as [i n ix o l f]; simpl.
  destruct f as [[|c f]|]; destruct l as [[|d l]|]; reflexivity.
Qed.

Lemma originalContainer_loaded data pg :
  originalContainer (loadNextSentence_loaded data pg)
  = Provider.original_sentence data.
Proof.
  unfold loadNextSentence_loaded. rewrite editable_of_nonempty.
  by rewrite renderEditableSentence_eq.
Qed.

(** C8: when the PATCH that [markGood] sent does not succeed (transport
    error, response not ok, or a body that is not JSON), the failure message
    is shown and nothing else on the page changes: the spans, the child
    nodes, the tokens, the undo stack and the current id are as they were,
    and [markGood] sends the same text for the same id again. *)
Theorem failed_submit_keeps_session
    (pg : page) (r : fetch_result unit) (sid : value) (finalText : jsstring) :
  markGood pg = Patch sid finalText ->
  failed r = true ->
  let after := run pg [MarkGoodButton; MarkGoodSettled r] in
  after = set_feedback_message (Feedback UPDATE_FAILED DisplayBlock) pg
  /\ feedback_message after = Feedback UPDATE_FAILED DisplayBlock
  /\ heap after = heap pg
  /\ sentenceContainer after = sentenceContainer pg
  /\ tokens after = tokens pg
  /\ undoStack after = undoStack pg
  /\ history after = history pg
  /\ currentSentenceId after = currentSentenceId pg
  /\ markGood after = Patch sid finalText.
Proof.
  intros Hsent Hr. cbn [run fold_left step].
  assert (E : markGood_settled r pg
              = set_feedback_message (Feedback UPDATE_FAILED DisplayBlock) pg).
  { by destruct r as [|[] [[]|]]. }
  rewrite E. repeat split; exact Hsent.
Qed.

Lemma failed_submit_keeps_session_witness :
  markGood sample_page = Patch (Num 7) (lit "The cat sat")
  /\ failed (NetworkError (A:=unit)) = true
  /\ markGood (run sample_page [MarkGoodButton; MarkGoodSettled NetworkError])
     = Patch (Num 7) (lit "The cat sat").
Proof.
  split; [reflexivity|]. split; [reflexivity|].
  apply (failed_submit_keeps_session sample_page NetworkError
           (Num 7) (lit "The cat sat")); reflexivity.
Defined.

(** C9: once a record is loaded, and for as long as no other record is,
    the display of the original holds [original_sentence] verbatim, and
    [useOriginal] leaves the same spans, child nodes, tokens and (empty) undo
    stack as committing an edit whose text is [original_sentence]. *)
Theorem revert_is_commit_of_original
    (pg : page) (data : SentenceRecord) (evs : list event) :
  Forall (fun e => keeps_original e = true) evs ->
  let loaded := run pg (LoadSettled (Response true (Some data)) :: evs) in
  let reverted := run loaded [UseOriginalButton] in
  let committed :=
    run loaded [TypeText (Provider.original_sentence data); SaveButton] in
  originalContainer loaded = Provider.original_sentence data
  /\ heap reverted = heap committed
  /\ sentenceContainer reverted = sentenceContainer committed
  /\ tokens reverted = tokens committed
  /\ undoStack reverted = [] /\ undoStack committed = []
  /\ displayed reverted = split SPACE (trim (Provider.original_sentence data)).
Proof.
  intros Hevs. cbn zeta.
  set (loaded := run pg (LoadSettled (Response true (Some data)) :: evs)).
  assert (Ho : originalContainer loaded = Provider.original_sentence data).
  { unfold loaded. cbn [run fold_left step loadNextSentence_settled].
    change (fold_left step evs ?p) with (run p evs).
    rewrite originalContainer_run by done. apply originalContainer_loaded. }
  cbn [run fold_left step]. unfold useOriginal, saveEdit.
  cbn [sentence_edit set_sentence_edit]. rewrite Ho.
  set (t := trim (Provider.original_sentence data)).
  assert (Ht : tokens (showFeedback REPLACED (renderEditableSentence t loaded))
               = tokens (renderEditableSentence t loaded)) by reflexivity.
  assert (Hc : tokens (set_edit_box_display DisplayNone
                 (renderEditableSentence t
                    (set_sentence_edit (Provider.original_sentence data) loaded)))
               = tokens (renderEditableSentence t
                    (set_sentence_edit (Provider.original_sentence data) loaded)))
    by reflexivity.
  split; [done|].
  split; [by rewrite !renderEditableSentence_eq|].
  split; [by rewrite !renderEditableSentence_eq|].
  split; [by rewrite Ht, Hc, !tokens_render|].
  split; [by rewrite renderEditableSentence_eq|].
  split; [by rewrite renderEditableSentence_eq|].
  unfold displayed. rewrite Ht. apply displayed_render.
Qed.

Lemma revert_is_commit_of_original_witness :
  Forall (fun e => keeps_original e = true) [Click 1; EditButton]
  /\ tokens (run blank_page
               [LoadSettled (Response true (Some sample_record));
                Click 1; EditButton; UseOriginalButton])
     = tokens (run blank_page
               [LoadSettled (Response true (Some sample_record));
                Click 1; EditButton;
                TypeText (lit "The cat sat"); SaveButton]).
Proof.
  assert (H : Forall (fun e => keeps_original e = true) [Click 1; EditButton])
    by (repeat constructor).
  split; [exact H|].
  pose proof (revert_is_commit_of_original blank_page sample_record
                [Click 1; EditButton] H) as (_ & _ & _ & Ht & _).
  exact Ht.
Defined.

(** C2 as stated fails: a final sentence that is present and empty is passed
    over, here for the candidate of the model. *)
Lemma load_passes_over_empty_final :
  Provider.final_sentence empty_final_record = Some []
  /\ spec_initial_text empty_final_record = []
  /\ editable_of empty_final_record <> Str (spec_initial_text empty_final_record)
  /\ displayed (run blank_page [LoadSettled (Response true (Some empty_final_record))])
     = [lit "A"; lit "cat"; lit "sat"]
  /\ displayed (run blank_page [LoadSettled (Response true (Some empty_final_record))])
     <> split SPACE (spec_initial_text empty_final_record).
Proof.
  split; [reflexivity|]. split; [reflexivity|].
  split; [discriminate|]. split; [reflexivity|]. discriminate.
Qed.

(** C2, amended: the text [loadNextSentence] renders is the final sentence
    when it is present and not empty, else the candidate of the model when it
    is present and not empty, else the original sentence.  A final sentence
    that is not empty is used whatever the candidate is. *)
Theorem load_precedence_nonempty (data : SentenceRecord) (pg : page) :
  let loaded := run pg [LoadSettled (Response true (Some data))] in
  editable_of data = Str (nonempty_initial_text data)
  /\ displayed loaded = split SPACE (nonempty_initial_text data)
  /\ undoStack loaded = []
  /\ currentSentenceId loaded = Provider.id data
  /\ originalContainer loaded = Provider.original_sentence data
  /\ forall i n ix o l c f,
       nonempty_initial_text
         {| Provider.id := i; Provider.note_id := n; Provider.index := ix;
            Provider.original_sentence := o; Provider.llm_sentence := l;
            Provider.final_sentence := Some (c :: f) |} = c :: f.
Proof.
  cbn [run fold_left step loadNextSentence_settled].
  split; [apply editable_of_nonempty|].
  split.
  { unfold loadNextSentence_loaded. rewrite editable_of_nonempty.
    etransitivity; [|apply displayed_render]. reflexivity. }
  split.
  { unfold loadNextSentence_loaded. rewrite editable_of_nonempty.
    by rewrite renderEditableSentence_eq. }
  split.
  { unfold loadNextSentence_loaded. rewrite editable_of_nonempty.
    by rewrite renderEditableSentence_eq. }
  split; [apply originalContainer_loaded|].
  reflexivity.
Qed.

(** * Redaction and undo on a consistent page *)

Lemma unredacted_inv pg p :
  consistent pg -> is_unredacted pg p = true ->
  exists a sp,
    span_children pg !! p = Some a /\ heap pg !! a = Some sp
    /\ onclick sp = Some (textContent sp) /\ dataset_index sp = Some p
    /\ tokens pg !! p
       = Some {| position := p; text := textContent sp; redacted := false |}.
Proof.
  intros Hc. unfold is_unredacted. rewrite tokens_lookup.
  destruct (span_children pg !! p) as [a|] eqn:Hp; [|done]. simpl.
  destruct (children_alloc pg Hc p a Hp) as (sp & Hsp & Hidx).
  unfold token_of. rewrite Hsp. simpl.
  destruct (onclick sp) as [w|] eqn:Hw; [|done]. intros _.
  assert (Ht : textContent sp = w).
  { eapply handler_word; eauto. by eapply list_elem_of_lookup_2. }
  exists a, sp. rewrite Ht. by repeat split.
Qed.

Lemma click_unredacted pg p a sp :
  span_children pg !! p = Some a -> heap pg !! a = Some sp ->
  onclick sp = Some (textContent sp) ->
  click p pg = redactWord a (textContent sp) pg.
Proof.
  intros Hp Hsp Hw. unfold click, click_span. by rewrite Hp, Hsp, Hw.
Qed.

Lemma set_heap_undoStack_id pg :
  set_heap (heap pg) (set_undoStack (undoStack pg) pg) = pg.
Proof. by destruct pg. Qed.

(** Redacting a word that is not redacted and undoing at once gives the page
    back, field for field. *)
Lemma undo_click pg p :
  consistent pg -> is_unredacted pg p = true -> undoRedact (click p pg) = pg.
Proof.
  intros Hc Hp.
  destruct (unredacted_inv pg p Hc Hp) as (a & sp & Ha & Hsp & Hw & Hidx & _).
  rewrite (click_unredacted pg p a sp Ha Hsp Hw), redactWord_eq.
  erewrite undoRedact_eq by reflexivity.
  cbn [heap undoStack set_heap set_undoStack span original].
  rewrite list_alter_alter_eq.
  rewrite (list_alter_ext _ (fun x => x) (heap pg) (heap pg) a).
  - rewrite list_alter_id by done.
    rewrite <- (set_heap_undoStack_id pg) at 3. by destruct pg.
  - intros x Hx. rewrite Hsp in Hx. injection Hx as <-. simpl.
    destruct sp as [t i h]; simpl in *. congruence.
  - done.
Qed.

Lemma tokens_update_other pg pg' a p :
  NoDup (span_children pg) ->
  span_children pg' = span_children pg ->
  (forall b, b <> a -> heap pg' !! b = heap pg !! b) ->
  span_children pg !! p = Some a ->
  forall q, q <> p -> tokens pg' !! q = tokens pg !! q.
Proof.
  intros Hnd Hch Hheap Hp q Hq. rewrite !tokens_lookup, Hch.
  destruct (span_children pg !! q) as [b|] eqn:Hb; [|done]. simpl.
  unfold token_of. rewrite Hheap; [done|].
  intros ->. apply Hq. by eapply NoDup_lookup.
Qed.

(** A click changes the token it hits at most. *)
Lemma tokens_click_other pg p q :
  consistent pg -> q <> p -> tokens (click p pg) !! q = tokens pg !! q.
Proof.
  intros Hc Hq. unfold click.
  destruct (span_children pg !! p) as [a|] eqn:Hp; [|done].
  unfold click_span.
  destruct (heap pg !! a) as [sp|] eqn:Hsp; [|done].
  destruct (onclick sp) as [w|] eqn:Hw; [|done].
  assert (Hheap : forall b, b <> a ->
            heap (redactWord a w pg) !! b = heap pg !! b).
  { intros b Hb. rewrite redactWord_eq. cbn [heap set_heap].
    by rewrite list_lookup_alter_ne. }
  assert (Hch : span_children (redactWord a w pg) = span_children pg)
    by (by rewrite redactWord_eq).
  exact (tokens_update_other pg _ a p (children_nodup pg Hc) Hch Hheap Hp q Hq).
Qed.

Lemma tokens_click_hit pg p :
  consistent pg -> is_unredacted pg p = true ->
  tokens (click p pg) !! p
  = Some {| position := p; text := REDACT; redacted := true |}.
Proof.
  intros Hc Hp.
  destruct (unredacted_inv pg p Hc Hp) as (a & sp & Ha & Hsp & Hw & Hidx & _).
  rewrite (click_unredacted pg p a sp Ha Hsp Hw), redactWord_eq.
  rewrite tokens_lookup. unfold span_children at 1.
  cbn [sentenceContainer set_heap set_undoStack].
  fold (span_children pg). rewrite Ha. simpl. unfold token_of.
  cbn [heap set_heap]. by rewrite list_lookup_alter_eq, Hsp.
Qed.

Lemma unredacted_click_other pg p q :
  consistent pg -> q <> p ->
  is_unredacted (click p pg) q = is_unredacted pg q.
Proof.
  intros Hc Hq. unfold is_unredacted. by rewrite tokens_click_other.
Qed.

Lemma displayed_lookup pg p : displayed pg !! p = text <$> tokens pg !! p.
Proof.
  unfold displayed. change (map text) with (fmap (M:=list) text).
  apply list_lookup_fmap.
Qed.

(** C4: on a page a session has reached, redacting a word that is not
    redacted shows the marker in its place, and undoing at once shows what
    the word showed before; the whole page is as it was before the two. *)
Theorem redact_then_undo_restores
    (pg0 : page) (evs : list event) (p : nat) :
  pristine pg0 ->
  let pg := run pg0 evs in
  is_unredacted pg p = true ->
  displayed (run pg [Click p]) !! p = Some REDACT
  /\ displayed (run pg [Click p; UndoButton]) !! p = displayed pg !! p
  /\ tokens (run pg [Click p; UndoButton]) = tokens pg
  /\ run pg [Click p; UndoButton] = pg.
Proof.
  intros H0 pg Hp.
  pose proof (reachable_consistent pg0 evs H0) as Hc. fold pg in Hc.
  cbn [run fold_left step]. rewrite (undo_click pg p Hc Hp).
  split; [|done].
  by rewrite displayed_lookup, (tokens_click_hit pg p Hc Hp).
Qed.

Lemma redact_then_undo_restores_witness :
  pristine blank_page
  /\ is_unredacted sample_page 1 = true
  /\ displayed (run sample_page [Click 1; UndoButton]) !! 1
     = displayed sample_page !! 1.
Proof.
  assert (H0 : pristine blank_page) by (by repeat split).
  split; [exact H0|]. split; [reflexivity|].
  apply (redact_then_undo_restores blank_page
           [LoadSettled (Response true (Some sample_record))] 1 H0).
  reflexivity.
Defined.

(** C3: on a page a session has reached, with three distinct positions [a],
    [b], [c] that are not redacted: after redacting [a], then [b], then [c],
    the first undo restores what [c] showed and leaves [a] and [b] redacted,
    the second restores [b] and leaves [a] redacted, the third restores [a];
    the order of the three numbers plays no part.  Each undo gives back the
    very page that preceded the redaction it reverses. *)
Theorem undo_is_last_in_first_out
    (pg0 : page) (evs : list event) (a b c : nat) :
  pristine pg0 ->
  let pg := run pg0 evs in
  a <> b -> a <> c -> b <> c ->
  is_unredacted pg a = true ->
  is_unredacted pg b = true ->
  is_unredacted pg c = true ->
  let r := run pg [Click a; Click b; Click c] in
  let u1 := run r [UndoButton] in
  let u2 := run r [UndoButton; UndoButton] in
  let u3 := run r [UndoButton; UndoButton; UndoButton] in
  (displayed r !! a = Some REDACT /\ displayed r !! b = Some REDACT
   /\ displayed r !! c = Some REDACT)
  /\ (displayed u1 !! c = displayed pg !! c /\ displayed u1 !! b = Some REDACT
      /\ displayed u1 !! a = Some REDACT /\ u1 = run pg [Click a; Click b])
  /\ (displayed u2 !! c = displayed pg !! c /\ displayed u2 !! b = displayed pg !! b
      /\ displayed u2 !! a = Some REDACT /\ u2 = run pg [Click a])
  /\ u3 = pg.
Proof.
  intros H0 pg Hab Hac Hbc Ha Hb Hc.
  pose proof (reachable_consistent pg0 evs H0) as C0. fold pg in C0.
  cbn [run fold_left step].
  set (pg1 := click a pg). set (pg2 := click b pg1). set (pg3 := click c pg2).
  assert (C1 : consistent pg1) by by apply consistent_click.
  assert (C2 : consistent pg2) by by apply consistent_click.
  assert (Hb1 : is_unredacted pg1 b = true).
  { unfold pg1. rewrite unredacted_click_other by done. done. }
  assert (Hc2 : is_unredacted pg2 c = true).
  { unfold pg2, pg1. rewrite !unredacted_click_other by done. done. }
  assert (Ta : tokens pg1 !! a = Some {| position := a; text := REDACT; redacted := true |})
    by by apply tokens_click_hit.
  assert (Tb : tokens pg2 !! b = Some {| position := b; text := REDACT; redacted := true |})
    by by apply tokens_click_hit.
  assert (Tc : tokens pg3 !! c = Some {| position := c; text := REDACT; redacted := true |})
    by by apply tokens_click_hit.
  assert (U3 : undoRedact pg3 = pg2) by by apply undo_click.
  assert (U2 : undoRedact pg2 = pg1) by by apply undo_click.
  assert (U1 : undoRedact pg1 = pg) by by apply undo_click.
  rewrite U3, U2, U1. rewrite !displayed_lookup.
  split; [|split; [|split]].
  - unfold pg3 at 1 2. rewrite !tokens_click_other by done. rewrite Tb, Tc.
    unfold pg2 at 1. rewrite tokens_click_other by done. by rewrite Ta.
  - rewrite Tb. unfold pg2 at 1 2. rewrite !tokens_click_other by done.
    rewrite Ta. unfold pg1. by rewrite tokens_click_other by done.
  - rewrite Ta. unfold pg1. by rewrite !tokens_click_other by done.
  - done.
Qed.

Lemma undo_is_last_in_first_out_witness :
  pristine blank_page
  /\ is_unredacted sample_page 2 = true
  /\ run (run sample_page [Click 2; Click 0; Click 1])
         [UndoButton; UndoButton; UndoButton] = sample_page.
Proof.
  assert (H0 : pristine blank_page) by (by repeat split).
  assert (H20 : 2 <> 0) by lia.
  assert (H21 : 2 <> 1) by lia.
  assert (H01 : 0 <> 1) by lia.
  assert (U2 : is_unredacted sample_page 2 = true) by (vm_compute; reflexivity).
  assert (U0 : is_unredacted sample_page 0 = true) by (vm_compute; reflexivity).
  assert (U1 : is_unredacted sample_page 1 = true) by (vm_compute; reflexivity).
  pose proof (undo_is_last_in_first_out blank_page
                [LoadSettled (Response true (Some sample_record))] 2 0 1
                H0 H20 H21 H01 U2 U0 U1) as H.
  cbv zeta in H. destruct H as (_ & _ & _ & H).
  split; [exact H0|]. split; [exact U2|exact H].
Defined.

(** * The stack read as a history *)

Lemma entry_position pg e :
  consistent pg -> e ∈ undoStack pg ->
  exists p,
    redaction_event pg e
    = Some {| event_position := p; original_text := original e |}
    /\ span_children pg !! p = Some (span e)
    /\ tokens pg !! p = Some {| position := p; text := REDACT; redacted := true |}.
Proof.
  intros Hc He.
  destruct (stack_redacted pg Hc e He) as (Hin & sp & Hsp & Hn & Ht).
  apply list_elem_of_lookup_1 in Hin as [p Hp].
  destruct (children_alloc pg Hc p _ Hp) as (sp' & Hsp' & Hidx).
  rewrite Hsp in Hsp'. injection Hsp' as <-.
  exists p. unfold redaction_event. rewrite Hsp, Hidx.
  split; [done|]. split; [done|].
  rewrite tokens_lookup, Hp. simpl. unfold token_of. by rewrite Hsp, Hn, Ht.
Qed.

Lemma positions_tokens pg :
  position <$> tokens pg = seq 0 (length (span_children pg)).
Proof.
  apply list_eq. intros p. rewrite list_lookup_fmap, tokens_lookup.
  destruct (span_children pg !! p) as [a|] eqn:Hp; simpl.
  - rewrite lookup_seq_lt by (by eapply lookup_lt_Some).
    unfold token_of. by destruct (heap pg !! a).
  - by rewrite lookup_seq_ge by (by apply lookup_ge_None_1).
Qed.

Lemma history_snoc pg st e ev :
  undoStack pg = st ++ [e] -> redaction_event pg e = Some ev ->
  history pg = ev :: reverse (omap (redaction_event pg) st).
Proof.
  intros Hst He. unfold history. rewrite Hst, omap_app. simpl. rewrite He.
  by rewrite reverse_snoc.
Qed.

Lemma tokens_undo_other pg st e p :
  consistent pg -> undoStack pg = st ++ [e] ->
  span_children pg !! p = Some (span e) ->
  forall q, q <> p -> tokens (undoRedact pg) !! q = tokens pg !! q.
Proof.
  intros Hc Hst Hp q Hq. rewrite (undoRedact_eq pg st e Hst).
  refine (tokens_update_other pg _ (span e) p (children_nodup pg Hc) _ _ Hp q Hq).
  - done.
  - intros b Hb. cbn [heap set_heap]. by rewrite list_lookup_alter_ne.
Qed.

(** C10: on a page a session has reached, a click on position [p] and an
    undo leave every surface of the page (the current id, the display of the
    original, the edit box, the feedback, the debug fields) and the child
    nodes of the container as they were; the tokens keep their number, their
    order and their positions; and every token but the one at the affected
    position ([p] for the click, the position of the most recent entry of
    the history for the undo) keeps its text and its state. *)
Theorem redact_and_undo_frame (pg0 : page) (evs : list event) (p : nat) :
  pristine pg0 ->
  let pg := run pg0 evs in
  (surfaces (click p pg) = surfaces pg
   /\ sentenceContainer (click p pg) = sentenceContainer pg
   /\ position <$> tokens (click p pg) = position <$> tokens pg
   /\ forall q, q <> p -> tokens (click p pg) !! q = tokens pg !! q)
  /\ (surfaces (undoRedact pg) = surfaces pg
      /\ sentenceContainer (undoRedact pg) = sentenceContainer pg
      /\ position <$> tokens (undoRedact pg) = position <$> tokens pg
      /\ match history pg with
         | [] => undoRedact pg = pg
         | ev :: _ =>
             forall q, q <> event_position ev ->
                       tokens (undoRedact pg) !! q = tokens pg !! q
         end).
Proof.
  intros H0 pg.
  pose proof (reachable_consistent pg0 evs H0) as Hc. fold pg in Hc.
  split.
  - destruct (click_shape pg p) as (h & u & E & _).
    assert (Hs : sentenceContainer (click p pg) = sentenceContainer pg)
      by (by rewrite E).
    split; [by rewrite E|]. split; [done|]. split.
    + rewrite !positions_tokens. unfold span_children. by rewrite Hs.
    + intros q Hq. by apply tokens_click_other.
  - destruct (undoRedact_shape pg) as (h & u & E & _).
    assert (Hs : sentenceContainer (undoRedact pg) = sentenceContainer pg)
      by (by rewrite E).
    split; [by rewrite E|]. split; [done|]. split.
    + rewrite !positions_tokens. unfold span_children. by rewrite Hs.
    + destruct (undoStack pg) as [|e st] eqn:Hst using rev_ind.
      * unfold history. rewrite Hst. simpl. by apply undoRedact_empty.
      * destruct (entry_position pg e Hc) as (pe & Hev & Hpe & _).
        { rewrite Hst. apply elem_of_app. right. by apply list_elem_of_singleton. }
        rewrite (history_snoc pg st e _ Hst Hev). simpl.
        by apply (tokens_undo_other pg st e pe).
Qed.

Lemma redact_and_undo_frame_witness :
  pristine blank_page
  /\ surfaces (click 1 sample_page) = surfaces sample_page
  /\ surfaces (undoRedact sample_page) = surfaces sample_page.
Proof.
  assert (H0 : pristine blank_page) by (by repeat split).
  pose proof (redact_and_undo_frame blank_page
                [LoadSettled (Response true (Some sample_record))] 1 H0)
    as [(Hclick & _) (Hundo & _)].
  split; [exact H0|]. split; [exact Hclick|exact Hundo].
Defined.

(** * The history of a session *)

Lemma history_positions pg :
  event_position <$> history pg = reverse (stack_positions pg).
Proof. unfold history, stack_positions. apply fmap_reverse. Qed.

Lemma stack_entries pg st :
  consistent pg -> (forall e, e ∈ st -> e ∈ undoStack pg) ->
  Forall2 (fun e ev => original_text ev = original e
                       /\ span_children pg !! event_position ev = Some (span e))
          st (omap (redaction_event pg) st).
Proof.
  intros Hc. induction st as [|e st IH]; intros Hsub; [constructor|].
  destruct (entry_position pg e Hc) as (p & Hev & Hp & _).
  { apply Hsub. by left. }
  simpl. rewrite Hev. constructor; [done|].
  apply IH. intros e' He'. apply Hsub. by right.
Qed.

Lemma length_history pg :
  consistent pg -> length (history pg) = length (undoStack pg).
Proof.
  intros Hc. unfold history. rewrite length_reverse. symmetry.
  eapply Forall2_length, stack_entries; eauto.
Qed.

Lemma stack_positions_spans pg :
  consistent pg ->
  (fun p => span_children pg !! p) <$> stack_positions pg
  = Some <$> (span <$> undoStack pg).
Proof.
  intros Hc. unfold stack_positions.
  pose proof (stack_entries pg (undoStack pg) Hc (fun e H => H)) as HF.
  induction HF as [|e ev st evs [_ Hp] _ IH]; [done|].
  rewrite !fmap_cons, Hp. f_equal. exact IH.
Qed.

Lemma stack_positions_nodup pg : consistent pg -> NoDup (stack_positions pg).
Proof.
  intros Hc. apply (NoDup_fmap_1 (fun p => span_children pg !! p)).
  rewrite stack_positions_spans by done.
  apply NoDup_fmap_2; [apply _|]. apply Hc.
Qed.

Lemma stack_positions_redacted pg :
  consistent pg ->
  Forall (fun p => tokens pg !! p
                   = Some {| position := p; text := REDACT; redacted := true |})
         (stack_positions pg).
Proof.
  intros Hc. apply Forall_forall. intros p Hp.
  apply list_elem_of_fmap in Hp as (ev & -> & Hev).
  apply list_elem_of_omap in Hev as (e & He & Hev).
  destruct (entry_position pg e Hc He) as (p & Hev' & _ & Htok).
  rewrite Hev in Hev'. injection Hev' as ->. done.
Qed.

Lemma stack_positions_is_redacted pg :
  consistent pg ->
  Forall (fun p => is_redacted pg p = true) (stack_positions pg).
Proof.
  intros Hc. eapply Forall_impl; [by apply stack_positions_redacted|].
  intros p Hp. unfold is_redacted. by rewrite Hp.
Qed.

(** Every redacted token has its entry on the stack. *)
Lemma redacted_is_stacked pg p :
  consistent pg -> is_redacted pg p = true -> p ∈ stack_positions pg.
Proof.
  intros Hc. unfold is_redacted. rewrite tokens_lookup.
  destruct (span_children pg !! p) as [a|] eqn:Hp; [|done]. simpl.
  destruct (children_alloc pg Hc p a Hp) as (sp & Hsp & Hidx).
  unfold token_of. rewrite Hsp. simpl.
  destruct (onclick sp) eqn:Hn; [done|]. intros _.
  assert (Ha : a ∈ span <$> undoStack pg).
  { eapply redacted_stacked; eauto. by eapply list_elem_of_lookup_2. }
  apply list_elem_of_fmap in Ha as (e & -> & He).
  destruct (entry_position pg e Hc He) as (p' & Hev & Hp' & _).
  assert (p' = p) as -> by (eapply NoDup_lookup; eauto; apply Hc).
  unfold stack_positions. apply list_elem_of_fmap.
  eexists. split; [|apply list_elem_of_omap; eauto]. done.
Qed.

(** * A second click on a redacted word *)

Lemma click_not_unredacted pg p :
  is_unredacted pg p = false -> click p pg = pg.
Proof.
  unfold is_unredacted, click, click_span. rewrite tokens_lookup.
  destruct (span_children pg !! p) as [a|]; [|done]. simpl.
  unfold token_of. destruct (heap pg !! a) as [sp|]; [|done]. simpl.
  by destruct (onclick sp).
Qed.

Lemma not_unredacted_after_click pg p :
  consistent pg -> is_unredacted (click p pg) p = false.
Proof.
  intros Hc. destruct (is_unredacted pg p) eqn:Hp.
  - unfold is_unredacted. by rewrite (tokens_click_hit pg p Hc Hp).
  - by rewrite (click_not_unredacted pg p Hp).
Qed.

Lemma tokens_same pg pg' :
  heap pg' = heap pg -> sentenceContainer pg' = sentenceContainer pg ->
  tokens pg' = tokens pg.
Proof.
  intros Hh Hs. unfold tokens, span_children. rewrite Hs.
  apply imap_ext. intros p a _. unfold token_of. by rewrite Hh.
Qed.

Lemma tokens_keep pg e :
  keeps_redactions e = true -> (forall p, e <> Click p) ->
  tokens (step pg e) = tokens pg.
Proof.
  intros Hk Hne.
  destruct e as [p| | |t| | | |r|r|]; cbn [step]; try done.
  - by destruct (Hne p).
  - by destruct r as [|[] [[]|]].
  - by destruct r as [|[] [data|]].
Qed.

Lemma redaction_kept pg e p :
  consistent pg -> keeps_redactions e = true ->
  is_unredacted pg p = false -> is_unredacted (step pg e) p = false.
Proof.
  intros Hc Hk Hp.
  assert (Hcases : (exists q, e = Click q) \/ (forall q, e <> Click q)).
  { destruct e; try (by right); left; eauto. }
  destruct Hcases as [[q ->]|Hne].
  - cbn [step]. destruct (decide (q = p)) as [->|Hq].
    + by apply not_unredacted_after_click.
    + by rewrite unredacted_click_other.
  - unfold is_unredacted in *. by rewrite tokens_keep.
Qed.

Lemma redaction_kept_run evs : forall pg p,
  consistent pg -> Forall (fun e => keeps_redactions e = true) evs ->
  is_unredacted pg p = false -> is_unredacted (run pg evs) p = false.
Proof.
  induction evs as [|e evs IH]; intros pg p Hc Hall Hp; [done|].
  inversion Hall; subst. simpl. apply IH; [by apply consistent_step|done|].
  by apply redaction_kept.
Qed.

(** A click on a position that was clicked before, with no undo and no
    rebuilding of the container in between, changes nothing. *)
Lemma second_click_ignored pg p mid :
  consistent pg -> Forall (fun e => keeps_redactions e = true) mid ->
  run pg (Click p :: mid ++ [Click p]) = run pg (Click p :: mid).
Proof.
  intros Hc Hmid.
  change (Click p :: mid ++ [Click p]) with ((Click p :: mid) ++ [Click p]).
  rewrite run_snoc. cbn [step]. apply click_not_unredacted.
  cbn [run fold_left]. apply redaction_kept_run; [by apply consistent_click|done|].
  by apply not_unredacted_after_click.
Qed.

(** * The order of the history *)

Lemma redaction_event_alter pg pg' f a e :
  heap pg' = alter f a (heap pg) ->
  (forall sp, dataset_index (f sp) = dataset_index sp) ->
  redaction_event pg' e = redaction_event pg e.
Proof.
  intros Hh Hf. unfold redaction_event. rewrite Hh, list_lookup_alter.
  case_decide as Ha; [|done]. subst a.
  destruct (heap pg !! span e) as [sp|]; simpl; [|done]. by rewrite Hf.
Qed.

Lemma omap_events_ext (f g : undo_entry -> option RedactionEvent)
    (st : list undo_entry) :
  (forall e, f e = g e) -> omap f st = omap g st.
Proof.
  intros Hfg. induction st as [|e st IH]; [done|].
  csimpl. rewrite Hfg. destruct (g e); by rewrite IH.
Qed.

Lemma stack_positions_same pg pg' :
  heap pg' = heap pg -> undoStack pg' = undoStack pg ->
  stack_positions pg' = stack_positions pg.
Proof.
  intros Hh Hu. unfold stack_positions. rewrite Hu. f_equal.
  apply omap_events_ext. intros e. unfold redaction_event. by rewrite Hh.
Qed.

Lemma stack_positions_click pg p :
  consistent pg -> is_unredacted pg p = true ->
  stack_positions (click p pg) = stack_positions pg ++ [p].
Proof.
  intros Hc Hp.
  destruct (unredacted_inv pg p Hc Hp) as (a & sp & Ha & Hsp & Hw & Hidx & _).
  rewrite (click_unredacted pg p a sp Ha Hsp Hw), redactWord_eq.
  unfold stack_positions. cbn [undoStack set_heap set_undoStack].
  rewrite omap_app, fmap_app. f_equal.
  - f_equal. apply omap_events_ext. intros e.
    by eapply redaction_event_alter.
  - simpl. unfold redaction_event. cbn [span heap set_heap original].
    by rewrite list_lookup_alter_eq, Hsp; simpl; rewrite Hidx.
Qed.

Lemma stack_positions_undo pg st e :
  consistent pg -> undoStack pg = st ++ [e] ->
  exists q, stack_positions pg = stack_positions (undoRedact pg) ++ [q].
Proof.
  intros Hc Hst.
  destruct (entry_position pg e Hc) as (q & Hev & _).
  { rewrite Hst. apply elem_of_app. right. by apply list_elem_of_singleton. }
  exists q. rewrite (undoRedact_eq pg st e Hst).
  unfold stack_positions. cbn [undoStack set_heap set_undoStack].
  rewrite Hst, omap_app, fmap_app. f_equal.
  - f_equal. apply omap_events_ext. intros e'. symmetry.
    by eapply redaction_event_alter.
  - simpl. by rewrite Hev.
Qed.

Lemma stack_positions_render txt pg :
  stack_positions (renderEditableSentence txt pg) = [].
Proof. unfold stack_positions. by rewrite undoStack_render. Qed.

(** What one event does to the positions on the stack: nothing, or it puts
    the clicked position, not redacted so far, on top, or it takes the top
    off, or it empties the stack. *)
Lemma stack_positions_step pg e :
  consistent pg ->
  stack_positions (step pg e) = stack_positions pg
  \/ (exists p, e = Click p /\ is_redacted pg p = false
                /\ stack_positions (step pg e) = stack_positions pg ++ [p])
  \/ (exists q, stack_positions pg = stack_positions (step pg e) ++ [q])
  \/ stack_positions (step pg e) = [].
Proof.
  intros Hc. destruct e as [p| | |t| | | |r|r|]; cbn [step].
  - destruct (is_unredacted pg p) eqn:Hp.
    + right. left. exists p. split; [done|]. split.
      * destruct (unredacted_inv pg p Hc Hp) as (a & sp & _ & _ & _ & _ & Ht).
        unfold is_redacted. by rewrite Ht.
      * by apply stack_positions_click.
    + left. by rewrite click_not_unredacted.
  - destruct (undoStack pg) as [|e st] eqn:Hst using rev_ind.
    + left. by rewrite undoRedact_empty.
    + right. right. left. by apply (stack_positions_undo pg st e).
  - by left.
  - by left.
  - right. right. right. unfold saveEdit.
    etransitivity; [|apply (stack_positions_render (trim (sentence_edit pg)) pg)].
    by apply stack_positions_same.
  - right. right. right. unfold useOriginal.
    etransitivity;
      [|apply (stack_positions_render (trim (originalContainer pg)) pg)].
    by apply stack_positions_same.
  - by left.
  - left. by destruct r as [|[] [[]|]].
  - destruct r as [|[] [data|]]; try by left.
    right. right. right. cbn [loadNextSentence_settled].
    unfold stack_positions, loadNextSentence_loaded.
    rewrite editable_of_nonempty. by rewrite renderEditableSentence_eq.
  - by left.
Qed.

Lemma redacted_since_lt pg0 evs p t :
  redacted_since pg0 evs p t -> t < length evs.
Proof. intros (Ht & _). by eapply lookup_lt_Some. Qed.

(** A redaction that has lasted up to now lasts one event more when the
    token is still redacted after that event. *)
Lemma redacted_since_snoc pg0 evs e p t :
  redacted_since pg0 evs p t ->
  is_redacted (run pg0 (evs ++ [e])) p = true ->
  redacted_since pg0 (evs ++ [e]) p t.
Proof.
  intros (Ht & Hbefore & Hafter) Hnow.
  pose proof (lookup_lt_Some _ _ _ Ht) as Hlt.
  split; [by rewrite lookup_app_l|]. split.
  - by rewrite take_app_le by lia.
  - intros k [Hk1 Hk2]. rewrite length_app in Hk2. simpl in Hk2.
    destruct (decide (k <= length evs)) as [Hle|Hgt].
    + rewrite take_app_le by done. apply Hafter. lia.
    + rewrite take_ge by (rewrite length_app; simpl; lia). done.
Qed.

Lemma redacted_since_now pg0 evs p :
  is_redacted (run pg0 evs) p = false ->
  is_redacted (run pg0 (evs ++ [Click p])) p = true ->
  redacted_since pg0 (evs ++ [Click p]) p (length evs).
Proof.
  intros Hbefore Hnow. split; [by rewrite list_lookup_middle|]. split.
  - by rewrite take_app_length.
  - intros k [Hk1 Hk2]. rewrite length_app in Hk2. simpl in Hk2.
    rewrite take_ge by (rewrite length_app; simpl; lia). done.
Qed.

Lemma redacted_since_all_snoc pg0 evs e ps ts :
  Forall2 (redacted_since pg0 evs) ps ts ->
  Forall (fun p => is_redacted (run pg0 (evs ++ [e])) p = true) ps ->
  Forall2 (redacted_since pg0 (evs ++ [e])) ps ts.
Proof.
  induction 1 as [|p t ps ts Hpt _ IH]; intros Hall; [constructor|].
  inversion Hall; subst. constructor; [by apply redacted_since_snoc|by apply IH].
Qed.

(** The entries of the stack, oldest first, were pushed at increasing
    times, and each marks a token that has been redacted ever since. *)
Lemma stack_in_order_of_redaction pg0 evs :
  pristine pg0 ->
  exists ts,
    Forall2 (redacted_since pg0 evs) (stack_positions (run pg0 evs)) ts
    /\ StronglySorted lt ts.
Proof.
  intros H0. induction evs as [|e evs IH] using rev_ind.
  - exists []. destruct H0 as (Hu & _ & _).
    unfold stack_positions. cbn [run fold_left]. rewrite Hu.
    split; constructor.
  - destruct IH as (ts & Hts & Hsorted).
    pose proof (reachable_consistent pg0 evs H0) as Hc.
    pose proof (reachable_consistent pg0 (evs ++ [e]) H0) as Hc'.
    pose proof (stack_positions_is_redacted _ Hc') as Hred.
    pose proof (stack_positions_step (run pg0 evs) e Hc) as Hstep.
    rewrite <- run_snoc in Hstep.
    destruct Hstep as [Hsame|[(p & -> & Hp & Hpush)|[(q & Hpop)|Hnil]]].
    + exists ts. split; [|done]. rewrite Hsame in *.
      by apply redacted_since_all_snoc.
    + exists (ts ++ [length evs]). rewrite Hpush in *.
      apply Forall_app in Hred as [Hold Hnew]. split.
      * apply Forall2_app; [by apply redacted_since_all_snoc|].
        constructor; [|constructor]. apply redacted_since_now; [done|].
        by inversion Hnew.
      * apply StronglySorted_app. split; [|split; [done|repeat constructor]].
        intros t1 t2 Ht1 ->%list_elem_of_singleton.
        apply list_elem_of_lookup_1 in Ht1 as [i Hi].
        destruct (Forall2_lookup_r _ _ _ _ _ Hts Hi) as (p1 & _ & Hp1).
        by eapply redacted_since_lt.
    + rewrite Hpop in Hts.
      apply Forall2_app_inv_l in Hts as (ts1 & ts2 & Hts1 & _ & ->).
      exists ts1. split; [by apply redacted_since_all_snoc|].
      by eapply StronglySorted_app_1_l.
    + exists []. rewrite Hnil. split; constructor.
Qed.

Lemma StronglySorted_reverse_lt ts :
  StronglySorted lt ts -> StronglySorted gt (reverse ts).
Proof.
  induction 1 as [|t ts _ IH Hall]; [constructor|].
  rewrite reverse_cons. apply StronglySorted_app.
  split; [|split; [done|repeat constructor]].
  intros t1 t2 Ht1 ->%list_elem_of_singleton.
  rewrite elem_of_reverse in Ht1.
  rewrite Forall_forall in Hall. unfold gt. by apply Hall.
Qed.

(** An undo on a stack that is not empty restores the text of the token the
    most recent event names, makes it clickable again, and leaves the rest
    of the history. *)
Lemma undo_pops pg ev rest :
  consistent pg -> history pg = ev :: rest ->
  is_redacted pg (event_position ev) = true
  /\ tokens (undoRedact pg) !! event_position ev
     = Some {| position := event_position ev; text := original_text ev;
               redacted := false |}
  /\ history (undoRedact pg) = rest.
Proof.
  intros Hc Hh.
  destruct (undoStack pg) as [|e st] eqn:Hst using rev_ind.
  { unfold history in Hh. by rewrite Hst in Hh. }
  clear IHst.
  destruct (entry_position pg e Hc) as (p & Hev & Hp & Htok).
  { rewrite Hst. apply elem_of_app. right. by apply list_elem_of_singleton. }
  rewrite (history_snoc pg st e _ Hst Hev) in Hh. injection Hh as <- <-.
  cbn [event_position original_text].
  split; [unfold is_redacted; by rewrite Htok|].
  rewrite (undoRedact_eq pg st e Hst). split.
  - rewrite tokens_lookup. unfold span_children at 1.
    cbn [sentenceContainer set_heap set_undoStack]. fold (span_children pg).
    rewrite Hp. simpl. unfold token_of. cbn [heap set_heap].
    rewrite list_lookup_alter_eq.
    destruct (stack_redacted pg Hc e) as (_ & sp & Hsp & _).
    { rewrite Hst. apply elem_of_app. right. by apply list_elem_of_singleton. }
    by rewrite Hsp.
  - unfold history. cbn [undoStack set_heap set_undoStack]. f_equal.
    apply omap_events_ext. intros e'. by eapply redaction_event_alter.
Qed.

(** C1: on a page a session has reached, a second click on a position, with
    no undo (and no rebuilding of the container) since the first, is ignored:
    the page, its undo stack included, stays as it was.  Hence every entry of
    the stack is an event of the history, no position occurs twice in it,
    the positions of the history are exactly the positions of the redacted
    tokens, each showing the marker, the events are in the order of their
    redactions with the most recent first, and an undo finds the token of the
    first event redacted, restores its text and leaves the other events. *)
Theorem redact_twice_pushes_once (pg0 : page) (evs : list event) :
  pristine pg0 ->
  let pg := run pg0 evs in
  (forall p mid,
     Forall (fun e => keeps_redactions e = true) mid ->
     run pg (Click p :: mid ++ [Click p]) = run pg (Click p :: mid))
  /\ (forall p, undoStack (run pg [Click p; Click p]) = undoStack (run pg [Click p]))
  /\ length (history pg) = length (undoStack pg)
  /\ NoDup (event_position <$> history pg)
  /\ Forall (fun ev => tokens pg !! event_position ev
                       = Some {| position := event_position ev; text := REDACT;
                                 redacted := true |})
            (history pg)
  /\ (forall p, is_redacted pg p = true <-> p ∈ event_position <$> history pg)
  /\ (exists ts,
        Forall2 (redacted_since pg0 evs) (event_position <$> history pg) ts
        /\ StronglySorted gt ts)
  /\ match history pg with
     | [] => undoRedact pg = pg
     | ev :: rest =>
         is_redacted pg (event_position ev) = true
         /\ tokens (undoRedact pg) !! event_position ev
            = Some {| position := event_position ev; text := original_text ev;
                      redacted := false |}
         /\ history (undoRedact pg) = rest
     end.
Proof.
  intros H0 pg.
  pose proof (reachable_consistent pg0 evs H0) as Hc. fold pg in Hc.
  split; [intros p mid Hmid; by apply second_click_ignored|].
  split.
  { intros p. apply (f_equal undoStack).
    apply (second_click_ignored pg p [] Hc). constructor. }
  split; [by apply length_history|].
  split.
  { rewrite history_positions, reverse_Permutation.
    by apply stack_positions_nodup. }
  split.
  { apply Forall_forall. intros ev Hev.
    pose proof (stack_positions_redacted pg Hc) as Hall.
    rewrite Forall_forall in Hall. apply Hall.
    rewrite <- elem_of_reverse, <- history_positions.
    by apply list_elem_of_fmap_2. }
  split.
  { intros p. rewrite history_positions, elem_of_reverse. split.
    - by apply redacted_is_stacked.
    - pose proof (stack_positions_is_redacted pg Hc) as Hall.
      rewrite Forall_forall in Hall. apply Hall. }
  split.
  { destruct (stack_in_order_of_redaction pg0 evs H0) as (ts & Hts & Hsorted).
    exists (reverse ts). rewrite history_positions. split.
    - by apply Forall2_reverse.
    - by apply StronglySorted_reverse_lt. }
  destruct (history pg) as [|ev rest] eqn:Hh.
  - apply undoRedact_empty. apply length_history in Hc.
    rewrite Hh in Hc. simpl in Hc. by destruct (undoStack pg).
  - by apply undo_pops.
Qed.

Lemma redact_twice_pushes_once_witness :
  pristine blank_page
  /\ undoStack (run (run blank_page
                       [LoadSettled (Response true (Some sample_record)); Click 1])
                    [Click 1; Click 1])
     = undoStack (run (run blank_page
                         [LoadSettled (Response true (Some sample_record)); Click 1])
                      [Click 1]).
Proof.
  assert (H0 : pristine blank_page) by (by repeat split).
  pose proof (redact_twice_pushes_once blank_page
                [LoadSettled (Response true (Some sample_record)); Click 1] H0)
    as H.
  cbv zeta in H. destruct H as (_ & H & _).
  split; [exact H0|exact (H 1)].
Defined.

(** * The end-to-end scenario of the specification *)

Example end_to_end_load :
  displayed sample_page = [lit "The"; lit "cat"; lit "sat"].
Proof. vm_compute. reflexivity. Qed.

Example end_to_end_redact :
  displayed (run sample_page [Click 1]) = [lit "The"; REDACT; lit "sat"].
Proof. vm_compute. reflexivity. Qed.

Example end_to_end_undo :
  displayed (run sample_page [Click 1; UndoButton])
  = [lit "The"; lit "cat"; lit "sat"].
Proof. vm_compute. reflexivity. Qed.

Example end_to_end_commit :
  let pg := run sample_page
              [Click 1; UndoButton; TypeText (lit "A dog ran"); SaveButton] in
  displayed pg = [lit "A"; lit "dog"; lit "ran"]
  /\ history pg = []
  /\ markGood pg = Patch (Num 7) (lit "A dog ran").
Proof. vm_compute. repeat split; reflexivity. Qed.

(** What the edit box shows contains the markers, not the words they
    replaced. *)
Example edit_box_shows_markers :
  sentence_edit (run sample_page [Click 1; EditButton])
  = lit "The [REDACT] sat".
Proof. vm_compute. reflexivity. Qed.

(** [redactWord] itself has no guard: what keeps a word from being redacted
    twice is that its handler is [null] once it is redacted. *)
Remark redactWord_has_no_guard a w pg :
  undoStack (redactWord a w (redactWord a w pg))
  = undoStack pg ++ [UndoEntry a w; UndoEntry a w].
Proof. rewrite !redactWord_eq. simpl. by rewrite <- app_assoc. Qed.

(** * The shape of the container *)

Lemma interleaved_same pg pg' :
  sentenceContainer pg' = sentenceContainer pg -> interleaved pg -> interleaved pg'.
Proof. unfold interleaved, span_children. by intros ->. Qed.

Lemma interleaved_render txt pg : interleaved (renderEditableSentence txt pg).
Proof.
  unfold interleaved.
  erewrite (span_children_fresh_nodes _ (length (heap pg))
              (length (split SPACE txt)))
    by (by rewrite renderEditableSentence_eq).
  by rewrite renderEditableSentence_eq.
Qed.

Lemma interleaved_step pg e :
  interleaved pg \/ rebuilds e = true -> interleaved (step pg e).
Proof.
  intros H. destruct e as [p| | |t| | | |r|r|]; cbn [step].
  - destruct H as [H|]; [|done].
    destruct (click_shape pg p) as (h & u & -> & _).
    by eapply interleaved_same; [|exact H].
  - destruct H as [H|]; [|done].
    destruct (undoRedact_shape pg) as (h & u & -> & _).
    by eapply interleaved_same; [|exact H].
  - destruct H as [H|]; [|done]. by eapply interleaved_same; [|exact H].
  - destruct H as [H|]; [|done]. by eapply interleaved_same; [|exact H].
  - eapply interleaved_same;
      [|apply (interleaved_render (trim (sentence_edit pg)) pg)]; reflexivity.
  - eapply interleaved_same;
      [|apply (interleaved_render (trim (originalContainer pg)) pg)]; reflexivity.
  - by destruct H.
  - destruct H as [H|]; [|done].
    destruct r as [|[] [[]|]]; by eapply interleaved_same; [|exact H].
  - destruct r as [|[] [data|]]; cbn [loadNextSentence_settled];
      try (destruct H as [H|]; done).
    unfold loadNextSentence_loaded. rewrite editable_of_nonempty.
    eapply interleaved_same;
      [|apply (interleaved_render (nonempty_initial_text data)
                 (set_originalContainer (Provider.original_sentence data)
                   (set_stateDiv_sentenceId (Provider.id data)
                     (set_currentSentenceId (Provider.id data) pg))))];
      reflexivity.
  - destruct H as [H|]; [|done]. by eapply interleaved_same; [|exact H].
Qed.

Lemma interleaved_run evs : forall pg,
  interleaved pg -> interleaved (run pg evs).
Proof.
  induction evs as [|e evs IH]; intros pg H; [done|].
  simpl. apply IH, interleaved_step. by left.
Qed.

(** * The words a page shows *)

Lemma shows_same words pg pg' :
  heap pg' = heap pg -> sentenceContainer pg' = sentenceContainer pg ->
  undoStack pg' = undoStack pg -> shows words pg -> shows words pg'.
Proof.
  intros Hh Hs Hu [H1 H2 H3 H4 H5]. split.
  - by eapply consistent_same.
  - by eapply interleaved_same.
  - unfold span_children in *. by rewrite Hs.
  - unfold span_children in *. rewrite Hs, Hh. exact H4.
  - unfold span_children in *. rewrite Hs, Hu. exact H5.
Qed.

Lemma shows_render txt pg :
  shows (split SPACE txt) (renderEditableSentence txt pg).
Proof.
  split.
  - apply consistent_render.
  - apply interleaved_render.
  - apply length_span_children_render.
  - intros p a sp w Hp Hsp Hw.
    apply lookup_rendered in Hp as (w' & Hw' & _ & Hsp').
    rewrite Hsp' in Hsp. injection Hsp as <-. simpl in Hw. congruence.
  - intros p e He. rewrite undoStack_render in He. by apply elem_of_nil in He.
Qed.

Lemma shows_redactWord words pg p a sp w :
  shows words pg -> span_children pg !! p = Some a ->
  heap pg !! a = Some sp -> onclick sp = Some w ->
  shows words (redactWord a w pg).
Proof.
  intros [H1 H2 H3 H4 H5] Hp Hsp Hw. split.
  - eapply consistent_redactWord; eauto. by eapply list_elem_of_lookup_2.
  - eapply interleaved_same; [|exact H2]. by rewrite redactWord_eq.
  - rewrite redactWord_eq. exact H3.
  - rewrite redactWord_eq. unfold span_children in *.
    cbn [heap sentenceContainer set_heap set_undoStack].
    intros q b sp' w' Hq. rewrite list_lookup_alter. case_decide as Hab.
    + subst b. rewrite Hsp. simpl. intros [= <-]. done.
    + eauto.
  - rewrite redactWord_eq. unfold span_children in *.
    cbn [undoStack sentenceContainer set_heap set_undoStack].
    intros q e [He| ->%list_elem_of_singleton]%elem_of_app Hq.
    + eauto.
    + simpl in *.
      assert (q = p) as -> by (eapply NoDup_lookup; eauto; apply H1).
      eauto.
Qed.

Lemma shows_click words pg p : shows words pg -> shows words (click p pg).
Proof.
  intros H. unfold click.
  destruct (span_children pg !! p) as [a|] eqn:Hp; [|done].
  unfold click_span.
  destruct (heap pg !! a) as [sp|] eqn:Hsp; [|done].
  destruct (onclick sp) as [w|] eqn:Hw; [|done].
  by eapply shows_redactWord.
Qed.

Lemma shows_undoRedact words pg : shows words pg -> shows words (undoRedact pg).
Proof.
  intros H. destruct (undoStack pg) as [|e st] eqn:Hst using rev_ind.
  { by rewrite undoRedact_empty. }
  clear IHst. pose proof (consistent_undoRedact pg (shows_consistent _ _ H)) as Hc.
  destruct H as [H1 H2 H3 H4 H5].
  rewrite (undoRedact_eq pg st e Hst) in *. split; try done.
  - unfold span_children in *.
    cbn [heap sentenceContainer set_heap set_undoStack].
    intros q b sp' w' Hq. rewrite list_lookup_alter. case_decide as Hab.
    + subst b. destruct (heap pg !! span e); simpl; [|done].
      intros [= <-]. simpl. intros [= <-]. apply H5; [|done].
      rewrite Hst. apply elem_of_app. right. by apply list_elem_of_singleton.
    + eauto.
  - unfold span_children in *.
    cbn [undoStack sentenceContainer set_heap set_undoStack].
    intros q e' He' Hq. apply H5; [|done].
    rewrite Hst. apply elem_of_app. by left.
Qed.

Lemma shows_rendered pg e txt :
  rendered_text pg e = Some txt -> shows (split SPACE txt) (step pg e).
Proof.
  destruct e as [p| | |t| | | |r|r|]; cbn [rendered_text step]; try done.
  - intros [= <-]. unfold saveEdit.
    eapply shows_same; [| | |apply shows_render]; reflexivity.
  - intros [= <-]. unfold useOriginal.
    eapply shows_same; [| | |apply shows_render]; reflexivity.
  - destruct r as [|[] [data|]]; try done.
    cbn [loadNextSentence_settled]. unfold loadNextSentence_loaded.
    destruct (editable_of data) as [|z|t]; try done. intros [= <-].
    eapply shows_same; [| | |apply shows_render]; reflexivity.
Qed.

Lemma rebuilds_rendered_text pg e :
  rebuilds e = true -> exists txt, rendered_text pg e = Some txt.
Proof.
  destruct e as [p| | |t| | | |r|r|]; cbn [rebuilds rendered_text]; try done.
  - eauto.
  - eauto.
  - destruct r as [|[] [data|]]; try done. intros _.
    rewrite editable_of_nonempty. eauto.
Qed.

Lemma shows_step words pg e :
  rebuilds e = false -> shows words pg -> shows words (step pg e).
Proof.
  intros He H. destruct e as [p| | |t| | | |r|r|]; cbn [step]; try done.
  - by apply shows_click.
  - by apply shows_undoRedact.
  - by eapply shows_same; [| | |exact H].
  - by eapply shows_same; [| | |exact H].
  - destruct r as [|[] [[]|]]; by eapply shows_same; [| | |exact H].
  - by destruct r as [|[] [data|]].
  - by eapply shows_same; [| | |exact H].
Qed.

Lemma shows_run words evs : forall pg,
  Forall (fun e => rebuilds e = false) evs ->
  shows words pg -> shows words (run pg evs).
Proof.
  induction evs as [|e evs IH]; intros pg Hall H; [done|].
  inversion Hall; subst. simpl. apply IH; [done|]. by apply shows_step.
Qed.

(** Every token shows its word, or the marker when it is redacted. *)
Lemma shows_token words pg p tok :
  shows words pg -> tokens pg !! p = Some tok ->
  position tok = p
  /\ exists w, words !! p = Some w
               /\ text tok = if redacted tok then REDACT else w.
Proof.
  intros [H1 H2 H3 H4 H5]. rewrite tokens_lookup.
  destruct (span_children pg !! p) as [a|] eqn:Hp; [|done]. simpl.
  intros [= <-].
  destruct (children_alloc pg H1 p a Hp) as (sp & Hsp & _).
  unfold token_of. rewrite Hsp. simpl. split; [done|].
  pose proof (list_elem_of_lookup_2 _ _ _ Hp) as Ha.
  destruct (onclick sp) as [w|] eqn:Hw.
  - exists w. split; [by eapply H4|]. by eapply handler_word.
  - pose proof (redacted_stacked pg H1 a sp Ha Hsp Hw) as Hin.
    apply list_elem_of_fmap in Hin as (e & -> & He).
    destruct (stack_redacted pg H1 e He) as (_ & sp' & Hsp' & _ & Ht).
    exists (original e). split; [by eapply H5|]. congruence.
Qed.

Lemma shows_empty_stack words pg :
  shows words pg -> undoStack pg = [] -> displayed pg = words.
Proof.
  intros H Hu. apply list_eq. intros p. rewrite displayed_lookup.
  destruct (tokens pg !! p) as [tok|] eqn:Htok; simpl.
  - destruct (shows_token words pg p tok H Htok) as (_ & w & Hw & Ht).
    destruct (redacted tok) eqn:Hr; [|congruence].
    exfalso.
    assert (Hred : is_redacted pg p = true)
      by (unfold is_redacted; by rewrite Htok).
    apply (redacted_is_stacked pg p (shows_consistent _ _ H)) in Hred.
    unfold stack_positions in Hred. rewrite Hu in Hred.
    by apply elem_of_nil in Hred.
  - symmetry. apply lookup_ge_None_2. apply lookup_ge_None_1 in Htok.
    rewrite length_tokens, (shows_length _ _ H) in Htok. done.
Qed.

Lemma consistent_rebuilt pg e : rebuilds e = true -> consistent (step pg e).
Proof.
  intros He. destruct (rebuilds_rendered_text pg e He) as [txt Ht].
  exact (shows_consistent _ _ (shows_rendered pg e txt Ht)).
Qed.

Lemma lookup_interleaved (l : list nat) p :
  flat_map (fun a => [SpanNode a; TextNode [SPACE]]) l !! (2 * p)
  = SpanNode <$> l !! p
  /\ flat_map (fun a => [SpanNode a; TextNode [SPACE]]) l !! (2 * p + 1)
     = (fun _ => TextNode [SPACE]) <$> l !! p.
Proof.
  revert p. induction l as [|a l IH]; intros p; [done|].
  destruct p as [|p]; [done|].
  replace (2 * S p) with (S (S (2 * p))) by lia. simpl.
  replace (p + S (p + 0)) with (S (2 * p)) by lia. simpl.
  destruct (IH p) as [IH1 IH2]. split; [done|].
  replace (p + (p + 0) + 1) with (2 * p + 1) by lia. done.
Qed.

Lemma length_interleaved (l : list nat) :
  length (flat_map (fun a => [SpanNode a; TextNode [SPACE]]) l) = 2 * length l.
Proof. induction l as [|a l IH]; simpl; [done|]. rewrite IH. lia. Qed.

(** X1: once the container has been rendered (by a save, a revert or a load
    that succeeded), and whatever happens after, its child nodes are the
    spans in order, each followed by a text node of one space: twice as many
    nodes as tokens, the span of position [p] at index [2p] and carrying
    [p] as its [data-index]. *)
Theorem container_alternates_spans_and_spaces
    (pg0 : page) (e : event) (evs : list event) :
  rebuilds e = true ->
  let pg := run pg0 (e :: evs) in
  interleaved pg
  /\ length (sentenceContainer pg) = 2 * length (tokens pg)
  /\ forall p a, span_children pg !! p = Some a ->
       sentenceContainer pg !! (2 * p) = Some (SpanNode a)
       /\ sentenceContainer pg !! (2 * p + 1) = Some (TextNode [SPACE])
       /\ exists sp, heap pg !! a = Some sp /\ dataset_index sp = Some p.
Proof.
  intros He pg.
  assert (Hi : interleaved pg).
  { unfold pg. cbn [run fold_left]. apply interleaved_run, interleaved_step.
    by right. }
  assert (Hc : consistent pg).
  { unfold pg. cbn [run fold_left]. by apply consistent_run, consistent_rebuilt. }
  split; [done|]. split.
  - rewrite Hi, length_interleaved, length_tokens. done.
  - intros p a Hp. rewrite Hi.
    destruct (lookup_interleaved (span_children pg) p) as [-> ->].
    rewrite Hp. split; [done|]. split; [done|]. by apply (children_alloc pg Hc).
Qed.

Lemma container_alternates_spans_and_spaces_witness :
  rebuilds UseOriginalButton = true
  /\ length (sentenceContainer (run sample_page [UseOriginalButton; Click 1]))
     = 2 * length (tokens (run sample_page [UseOriginalButton; Click 1])).
Proof.
  assert (H : rebuilds UseOriginalButton = true) by reflexivity.
  split; [exact H|].
  exact (proj1 (proj2
    (container_alternates_spans_and_spaces sample_page UseOriginalButton
       [Click 1] H))).
Defined.

Lemma REDACT_no_space : SPACE ∉ REDACT.
Proof. apply (bool_decide_unpack _). by vm_compute. Qed.

(** X2: after [renderEditableSentence(txt)] and any events that do not
    render again, there is one token per segment of [txt], at its position;
    a token that is not redacted shows its segment, a redacted one shows the
    marker; so no token ever shows a space. *)
Theorem tokens_show_word_or_marker
    (pg0 : page) (e : event) (txt : jsstring) (evs : list event) :
  rendered_text pg0 e = Some txt ->
  Forall (fun e' => rebuilds e' = false) evs ->
  let pg := run pg0 (e :: evs) in
  length (tokens pg) = length (split SPACE txt)
  /\ (forall p tok, tokens pg !! p = Some tok ->
        position tok = p
        /\ exists w, split SPACE txt !! p = Some w
                     /\ text tok = if redacted tok then REDACT else w)
  /\ Forall (fun w => SPACE ∉ w) (displayed pg).
Proof.
  intros Ht Hevs pg.
  assert (Hs : shows (split SPACE txt) pg).
  { unfold pg. cbn [run fold_left]. apply shows_run; [done|].
    by apply shows_rendered. }
  split; [rewrite length_tokens; apply (shows_length _ _ Hs)|].
  split; [intros p tok; by apply shows_token|].
  apply Forall_forall. intros w Hw.
  apply list_elem_of_lookup_1 in Hw as [p Hp].
  rewrite displayed_lookup in Hp.
  destruct (tokens pg !! p) as [tok|] eqn:Htok; [|done].
  simpl in Hp. injection Hp as <-.
  destruct (shows_token _ pg p tok Hs Htok) as (_ & w & Hw & ->).
  destruct (redacted tok).
  - apply REDACT_no_space.
  - pose proof (split_segments_free SPACE txt) as Hall.
    rewrite Forall_forall in Hall. apply Hall. by eapply list_elem_of_lookup_2.
Qed.

Lemma tokens_show_word_or_marker_witness :
  rendered_text sample_page UseOriginalButton = Some (lit "The cat sat")
  /\ Forall (fun e' => rebuilds e' = false) [Click 2; Click 0; UndoButton]
  /\ length (tokens (run sample_page
                       [UseOriginalButton; Click 2; Click 0; UndoButton]))
     = length (split SPACE (lit "The cat sat")).
Proof.
  assert (H1 : rendered_text sample_page UseOriginalButton
               = Some (lit "The cat sat")) by (vm_compute; reflexivity).
  assert (H2 : Forall (fun e' => rebuilds e' = false)
                 [Click 2; Click 0; UndoButton]) by (repeat constructor).
  split; [exact H1|]. split; [exact H2|].
  exact (proj1 (tokens_show_word_or_marker sample_page UseOriginalButton
                  (lit "The cat sat") [Click 2; Click 0; UndoButton] H1 H2)).
Defined.

(** * Reading the container back *)

Lemma trim_start_snoc_space s c :
  is_white_space c = true ->
  trim_start (s ++ [c]) = match trim_start s with
                          | [] => []
                          | r => r ++ [c]
                          end.
Proof.
  intros Hc. induction s as [|d s IH]; simpl.
  - by rewrite Hc.
  - destruct (is_white_space d); [done|]. done.
Qed.

Lemma trim_snoc_space s c :
  is_white_space c = true -> trim (s ++ [c]) = trim s.
Proof.
  intros Hc. unfold trim. rewrite trim_start_snoc_space by done.
  destruct (trim_start s) as [|d r]; [done|].
  by apply trim_end_snoc_space.
Qed.

Lemma displayed_nodes pg :
  displayed pg = map (fun a => node_textContent pg (SpanNode a)) (span_children pg).
Proof.
  apply list_eq. intros p. rewrite displayed_lookup, tokens_lookup.
  change (map ?f) with (fmap (M:=list) f). rewrite list_lookup_fmap.
  destruct (span_children pg !! p) as [a|]; [|done]. simpl.
  unfold token_of. by destruct (heap pg !! a).
Qed.

Lemma join_empty_interleaved pg (l : list nat) :
  join_empty (map (node_textContent pg)
                (flat_map (fun a => [SpanNode a; TextNode [SPACE]]) l))
  = concat (map (fun w => w ++ [SPACE])
              (map (fun a => node_textContent pg (SpanNode a)) l)).
Proof.
  unfold join_empty. induction l as [|a l IH]; [done|].
  cbn [flat_map app map concat]. rewrite IH.
  cbn [node_textContent]. by rewrite <- app_assoc.
Qed.

(** On a rendered container, what [editSentence] and [markGood] read is the
    displayed words joined by single spaces, trimmed. *)
Lemma container_text_interleaved pg :
  interleaved pg -> container_text pg = trim (join SPACE (displayed pg)).
Proof.
  intros Hi. unfold container_text. rewrite Hi, join_empty_interleaved.
  rewrite <- displayed_nodes.
  destruct (displayed pg) as [|w ws] eqn:Hd; [done|].
  rewrite concat_with_sep by done.
  by apply trim_snoc_space.
Qed.

(** X4: on a rendered container, [editSentence] fills the edit box with the
    displayed words joined by single spaces and trimmed (markers in the place
    of the redacted words), shows the box, and leaves spans and stack alone;
    [markGood] sends that same text or, with no truthy id, alerts. *)
Theorem edit_and_submit_read_displayed_words (pg : page) :
  interleaved pg ->
  let shown := trim (join SPACE (displayed pg)) in
  sentence_edit (editSentence pg) = shown
  /\ edit_box_display (editSentence pg) = DisplayBlock
  /\ heap (editSentence pg) = heap pg
  /\ sentenceContainer (editSentence pg) = sentenceContainer pg
  /\ undoStack (editSentence pg) = undoStack pg
  /\ markGood pg = (if truthy (currentSentenceId pg)
                    then Patch (currentSentenceId pg) shown
                    else AlertNoSentence).
Proof.
  intros Hi shown.
  pose proof (container_text_interleaved pg Hi) as Ht. fold shown in Ht.
  split; [exact Ht|]. repeat (split; [reflexivity|]).
  unfold markGood. rewrite Ht. by destruct (truthy (currentSentenceId pg)).
Qed.

Lemma edit_and_submit_read_displayed_words_witness :
  interleaved (run sample_page [Click 1])
  /\ sentence_edit (editSentence (run sample_page [Click 1]))
     = trim (join SPACE (displayed (run sample_page [Click 1]))).
Proof.
  assert (H : interleaved (run sample_page [Click 1]))
    by (vm_compute; reflexivity).
  split; [exact H|].
  exact (proj1 (edit_and_submit_read_displayed_words _ H)).
Defined.

(** * Undoing everything *)

Lemma length_undoStack_undoRedact pg :
  length (undoStack (undoRedact pg)) = pred (length (undoStack pg)).
Proof.
  destruct (undoStack pg) as [|e st] eqn:Hst using rev_ind.
  - rewrite undoRedact_empty by done. by rewrite Hst.
  - rewrite (undoRedact_eq pg st e Hst). cbn [undoStack set_heap set_undoStack].
    rewrite length_app. simpl. lia.
Qed.

Lemma undo_all_empties n : forall pg,
  length (undoStack pg) <= n ->
  undoStack (run pg (replicate n UndoButton)) = [].
Proof.
  induction n as [|n IH]; intros pg Hn.
  - simpl. destruct (undoStack pg); [done|simpl in Hn; lia].
  - simpl. apply IH. rewrite length_undoStack_undoRedact. lia.
Qed.

Lemma undo_events_keep n : Forall (fun e => rebuilds e = false) (replicate n UndoButton).
Proof. induction n; by constructor. Qed.

(** X3: after [renderEditableSentence(txt)] and any events that do not
    render again, as many undos as the stack has entries (or more) leave the
    stack empty and every token showing its segment of [txt] again; what
    [markGood] would send is then [txt.trim()]. *)
Theorem undo_all_restores_rendered_text
    (pg0 : page) (e : event) (txt : jsstring) (evs : list event) (n : nat) :
  rendered_text pg0 e = Some txt ->
  Forall (fun e' => rebuilds e' = false) evs ->
  let pg := run pg0 (e :: evs) in
  length (undoStack pg) <= n ->
  let undone := run pg (replicate n UndoButton) in
  undoStack undone = []
  /\ displayed undone = split SPACE txt
  /\ Forall (fun tok => redacted tok = false) (tokens undone)
  /\ container_text undone = trim txt.
Proof.
  intros Ht Hevs pg Hn undone.
  assert (Hs : shows (split SPACE txt) undone).
  { unfold undone. apply shows_run; [apply undo_events_keep|].
    unfold pg. cbn [run fold_left]. apply shows_run; [done|].
    by apply shows_rendered. }
  assert (Hu : undoStack undone = []) by (by apply undo_all_empties).
  pose proof (shows_empty_stack _ _ Hs Hu) as Hd.
  split; [done|]. split; [done|]. split.
  - apply Forall_forall. intros tok Htok.
    apply list_elem_of_lookup_1 in Htok as [p Hp].
    destruct (redacted tok) eqn:Hr; [|done]. exfalso.
    assert (Hred : is_redacted undone p = true)
      by (unfold is_redacted; by rewrite Hp).
    apply (redacted_is_stacked _ p (shows_consistent _ _ Hs)) in Hred.
    unfold stack_positions in Hred. rewrite Hu in Hred.
    by apply elem_of_nil in Hred.
  - rewrite (container_text_interleaved _ (shows_interleaved _ _ Hs)), Hd.
    by rewrite join_split.
Qed.

Lemma undo_all_restores_rendered_text_witness :
  rendered_text sample_page UseOriginalButton = Some (lit "The cat sat")
  /\ Forall (fun e' => rebuilds e' = false) [Click 2; Click 0]
  /\ length (undoStack (run sample_page [UseOriginalButton; Click 2; Click 0])) <= 2
  /\ displayed (run (run sample_page [UseOriginalButton; Click 2; Click 0])
                    (replicate 2 UndoButton))
     = split SPACE (lit "The cat sat").
Proof.
  assert (H1 : rendered_text sample_page UseOriginalButton
               = Some (lit "The cat sat")) by (vm_compute; reflexivity).
  assert (H2 : Forall (fun e' => rebuilds e' = false) [Click 2; Click 0])
    by (repeat constructor).
  assert (H3 : length (undoStack (run sample_page
                                    [UseOriginalButton; Click 2; Click 0])) <= 2)
    by (vm_compute; lia).
  split; [exact H1|]. split; [exact H2|]. split; [exact H3|].
  exact (proj1 (proj2 (undo_all_restores_rendered_text sample_page
                         UseOriginalButton (lit "The cat sat")
                         [Click 2; Click 0] 2 H1 H2 H3))).
Defined.

(** * Rebuilding the container *)

Lemma no_redaction_without_stack pg :
  consistent pg -> undoStack pg = [] ->
  Forall (fun tok => redacted tok = false) (tokens pg).
Proof.
  intros Hc Hu. apply Forall_forall. intros tok Htok.
  apply list_elem_of_lookup_1 in Htok as [p Hp].
  destruct (redacted tok) eqn:Hr; [|done]. exfalso.
  assert (Hred : is_redacted pg p = true) by (unfold is_redacted; by rewrite Hp).
  apply (redacted_is_stacked _ p Hc) in Hred.
  unfold stack_positions in Hred. rewrite Hu in Hred.
  by apply elem_of_nil in Hred.
Qed.

Lemma undoStack_rebuilt pg e : rebuilds e = true -> undoStack (step pg e) = [].
Proof.
  intros He. pose proof (stack_positions_step pg e) as _.
  destruct e as [p| | |t| | | |r|r|]; cbn [rebuilds step] in *; try done.
  - unfold saveEdit. by rewrite renderEditableSentence_eq.
  - unfold useOriginal. by rewrite renderEditableSentence_eq.
  - destruct r as [|[] [data|]]; try done. cbn [loadNextSentence_settled].
    unfold loadNextSentence_loaded. rewrite editable_of_nonempty.
    by rewrite renderEditableSentence_eq.
Qed.

(** X6: a save, a revert and a load that succeeded each leave an empty undo
    stack and no token redacted, whatever was redacted before: the
    redactions of the previous rendering cannot be undone any more, and an
    undo right after changes nothing. *)
Theorem every_rendering_clears_redactions (pg : page) (e : event) :
  rebuilds e = true ->
  undoStack (step pg e) = []
  /\ history (step pg e) = []
  /\ Forall (fun tok => redacted tok = false) (tokens (step pg e))
  /\ run pg [e; UndoButton] = step pg e.
Proof.
  intros He. pose proof (undoStack_rebuilt pg e He) as Hu.
  split; [done|]. split; [unfold history; by rewrite Hu|]. split.
  - apply no_redaction_without_stack; [by apply consistent_rebuilt|done].
  - cbn [run fold_left step]. by apply undoRedact_empty.
Qed.

Lemma every_rendering_clears_redactions_witness :
  rebuilds UseOriginalButton = true
  /\ undoStack (step (run sample_page [Click 1]) UseOriginalButton) = [].
Proof.
  assert (H : rebuilds UseOriginalButton = true) by reflexivity.
  split; [exact H|].
  exact (proj1 (every_rendering_clears_redactions
                  (run sample_page [Click 1]) UseOriginalButton H)).
Defined.



(** * Redoing and counting *)

(** X12: on a page a session has reached whose history is not empty, an
    undo followed by a click on the position of the most recent event gives
    the page back as it was before the undo: the word is redacted again,
    with the same entry on the stack. *)
Theorem click_after_undo_redoes (pg0 : page) (evs : list event) :
  pristine pg0 ->
  let pg := run pg0 evs in
  forall ev rest,
    history pg = ev :: rest ->
    run pg [UndoButton; Click (event_position ev)] = pg.
Proof.
  intros H0 pg ev rest Hh.
  pose proof (reachable_consistent pg0 evs H0) as Hc. fold pg in Hc.
  destruct (undoStack pg) as [|e st] eqn:Hst using rev_ind.
  { unfold history in Hh. by rewrite Hst in Hh. }
  clear IHst.
  assert (He : e ∈ undoStack pg).
  { rewrite Hst. apply elem_of_app. right. by apply list_elem_of_singleton. }
  destruct (entry_position pg e Hc He) as (p & Hev & Hp & _).
  destruct (stack_redacted pg Hc e He) as (_ & sp & Hsp & Hn & Ht).
  rewrite (history_snoc pg st e _ Hst Hev) in Hh. injection Hh as <- _.
  cbn [event_position].
  cbn [run fold_left step]. rewrite (undoRedact_eq pg st e Hst).
  unfold click. unfold span_children at 1.
  cbn [sentenceContainer set_heap set_undoStack]. fold (span_children pg).
  rewrite Hp. unfold click_span. cbn [heap set_heap].
  rewrite list_lookup_alter_eq, Hsp. cbn [fmap option_fmap option_map onclick].
  rewrite redactWord_eq. cbn [heap undoStack set_heap set_undoStack].
  rewrite list_alter_alter_eq.
  rewrite (list_alter_ext _ (fun x => x) (heap pg) (heap pg) (span e)).
  - rewrite list_alter_id by done.
    replace (UndoEntry (span e) (original e)) with e by (by destruct e).
    rewrite <- Hst. by destruct pg.
  - intros x Hx. rewrite Hsp in Hx. injection Hx as <-. simpl.
    destruct sp as [t i h]; simpl in *. congruence.
  - done.
Qed.

Lemma click_after_undo_redoes_witness :
  pristine blank_page
  /\ history (run blank_page
                [LoadSettled (Response true (Some sample_record)); Click 1])
     = [{| event_position := 1; original_text := lit "cat" |}]
  /\ run (run blank_page
            [LoadSettled (Response true (Some sample_record)); Click 1])
         [UndoButton;
          Click (event_position
                   {| event_position := 1; original_text := lit "cat" |})]
     = run blank_page
         [LoadSettled (Response true (Some sample_record)); Click 1].
Proof.
  assert (H0 : pristine blank_page) by (by repeat split).
  assert (Hh : history (run blank_page
                          [LoadSettled (Response true (Some sample_record));
                           Click 1])
               = [{| event_position := 1; original_text := lit "cat" |}])
    by (vm_compute; reflexivity).
  split; [exact H0|]. split; [exact Hh|].
  exact (click_after_undo_redoes blank_page
           [LoadSettled (Response true (Some sample_record)); Click 1] H0
           _ _ Hh).
Defined.

(** X13: on a page a session has reached, the redacted tokens are, up to
    order, the positions of the history; so there are exactly as many
    redacted tokens as the stack has entries. *)
Theorem redacted_tokens_match_stack (pg0 : page) (evs : list event) :
  pristine pg0 ->
  let pg := run pg0 evs in
  redacted_positions pg ≡ₚ event_position <$> history pg
  /\ length (redacted_positions pg) = length (undoStack pg).
Proof.
  intros H0 pg.
  pose proof (reachable_consistent pg0 evs H0) as Hc. fold pg in Hc.
  assert (Hperm : redacted_positions pg ≡ₚ stack_positions pg).
  { apply NoDup_Permutation.
    - apply NoDup_filter, NoDup_seq.
    - by apply stack_positions_nodup.
    - intros p. unfold redacted_positions. rewrite list_elem_of_filter. split.
      + intros [Hr _]. by apply redacted_is_stacked.
      + intros Hp. pose proof (stack_positions_is_redacted pg Hc) as Hall.
        rewrite Forall_forall in Hall. specialize (Hall p Hp).
        split; [done|]. apply elem_of_seq. split; [lia|]. simpl.
        unfold is_redacted in Hall.
        destruct (tokens pg !! p) eqn:Htok; [|done].
        by eapply lookup_lt_Some. }
  split.
  - by rewrite history_positions, reverse_Permutation.
  - rewrite Hperm. unfold stack_positions. rewrite length_fmap.
    rewrite <- (length_history pg Hc). unfold history. by rewrite length_reverse.
Qed.

Lemma redacted_tokens_match_stack_witness :
  pristine blank_page
  /\ length (redacted_positions
               (run blank_page
                  [LoadSettled (Response true (Some sample_record));
                   Click 2; Click 0]))
     = length (undoStack
                 (run blank_page
                    [LoadSettled (Response true (Some sample_record));
                     Click 2; Click 0])).
Proof.
  assert (H0 : pristine blank_page) by (by repeat split).
  split; [exact H0|].
  exact (proj2 (redacted_tokens_match_stack blank_page
                  [LoadSettled (Response true (Some sample_record));
                   Click 2; Click 0] H0)).
Defined.

(** * The record on the page *)

Lemma record_surfaces_step pg e :
  keeps_original e = true -> record_surfaces (step pg e) = record_surfaces pg.
Proof.
  destruct e as [p| | |t| | | |r|r|]; cbn [step]; intros He; try done.
  - destruct (click_shape pg p) as (h & u & -> & _). done.
  - destruct (undoRedact_shape pg) as (h & u & -> & _). done.
  - unfold saveEdit. by rewrite renderEditableSentence_eq.
  - unfold useOriginal. by rewrite renderEditableSentence_eq.
  - by destruct r as [|[] [[]|]].
  - by destruct r as [|[] [data|]].
Qed.

Lemma record_surfaces_loaded data pg :
  record_surfaces (loadNextSentence_loaded data pg) = surfaces_of data.
Proof.
  unfold loadNextSentence_loaded. rewrite editable_of_nonempty.
  by rewrite renderEditableSentence_eq.
Qed.

Lemma last_loaded_step pg e :
  match e with
  | LoadSettled (Response true (Some data)) =>
      record_surfaces (step pg e) = surfaces_of data
  | _ => record_surfaces (step pg e) = record_surfaces pg
  end.
Proof.
  destruct e as [p| | |t| | | |r|r|];
    try (by apply record_surfaces_step).
  destruct r as [|[] [data|]]; try (by apply record_surfaces_step).
  apply record_surfaces_loaded.
Qed.

Lemma record_surfaces_run evs : forall pg,
  record_surfaces (run pg evs)
  = match last_loaded evs with
    | Some data => surfaces_of data
    | None => record_surfaces pg
    end.
Proof.
  induction evs as [|e evs IH]; intros pg; [done|].
  cbn [run fold_left last_loaded]. change (fold_left step evs ?p) with (run p evs).
  rewrite IH. destruct (last_loaded evs) as [d|]; [done|].
  pose proof (last_loaded_step pg e) as H.
  destruct e as [p| | |t| | | |r|r|]; try done.
  by destruct r as [|[] [data|]].
Qed.

(** X7: the current id, the id on the state element, the display of the
    original and the debug fields always describe one and the same record,
    the one of the last load that succeeded; until a load succeeds they are
    as the page had them.  No other event writes any of them. *)
Theorem surfaces_describe_last_loaded (pg : page) (evs : list event) :
  match last_loaded evs with
  | Some data =>
      currentSentenceId (run pg evs) = Provider.id data
      /\ stateDiv_sentenceId (run pg evs) = Provider.id data
      /\ originalContainer (run pg evs) = Provider.original_sentence data
      /\ debug (run pg evs)
         = DebugPanel (Provider.id data) (Provider.note_id data)
                      (Num (Provider.index data))
  | None =>
      currentSentenceId (run pg evs) = currentSentenceId pg
      /\ stateDiv_sentenceId (run pg evs) = stateDiv_sentenceId pg
      /\ originalContainer (run pg evs) = originalContainer pg
      /\ debug (run pg evs) = debug pg
  end.
Proof.
  pose proof (record_surfaces_run evs pg) as H.
  destruct (last_loaded evs) as [data|]; injection H as H1 H2 H3 H4; done.
Qed.

Lemma interleaved_after_load evs : forall pg data,
  last_loaded evs = Some data -> interleaved (run pg evs).
Proof.
  induction evs as [|e evs IH]; intros pg data; [done|].
  cbn [run fold_left last_loaded]. change (fold_left step evs ?p) with (run p evs).
  destruct (last_loaded evs) as [d|] eqn:Hl.
  - intros _. by eapply IH.
  - intros He. apply interleaved_run, interleaved_step. right.
    destruct e as [p| | |t| | | |r|r|]; try done.
    by destruct r as [|[] [d|]].
Qed.

(** X8: started on the page as the script finds it, [markGood] alerts and
    sends nothing until a load has succeeded, and also when the id of the
    record last loaded is falsy (0, the empty string, null); otherwise it
    sends, for the id of the record last loaded, the displayed words joined
    by single spaces and trimmed. *)
Theorem markGood_targets_last_loaded (pg0 : page) (evs : list event) :
  pristine pg0 ->
  markGood (run pg0 evs)
  = match last_loaded evs with
    | Some data =>
        if truthy (Provider.id data)
        then Patch (Provider.id data)
                   (trim (join SPACE (displayed (run pg0 evs))))
        else AlertNoSentence
    | None => AlertNoSentence
    end.
Proof.
  intros (_ & Hid & _).
  pose proof (record_surfaces_run evs pg0) as Hs.
  unfold markGood. destruct (last_loaded evs) as [data|] eqn:Hl.
  - assert (Hc : currentSentenceId (run pg0 evs) = Provider.id data)
      by (by injection Hs).
    rewrite Hc. destruct (truthy (Provider.id data)); [|done]. simpl.
    by rewrite (container_text_interleaved _ (interleaved_after_load evs pg0 data Hl)).
  - assert (Hc : currentSentenceId (run pg0 evs) = currentSentenceId pg0)
      by (by injection Hs).
    by rewrite Hc, Hid.
Qed.

Lemma markGood_targets_last_loaded_witness :
  pristine blank_page
  /\ markGood (run blank_page
                 [LoadSettled (Response true (Some zero_id_record)); Click 1])
     = match last_loaded
               [LoadSettled (Response true (Some zero_id_record)); Click 1] with
       | Some data =>
           if truthy (Provider.id data)
           then Patch (Provider.id data)
                  (trim (join SPACE
                     (displayed (run blank_page
                        [LoadSettled (Response true (Some zero_id_record));
                         Click 1]))))
           else AlertNoSentence
       | None => AlertNoSentence
       end.
Proof.
  assert (H0 : pristine blank_page) by (by repeat split).
  split; [exact H0|].
  exact (markGood_targets_last_loaded blank_page
           [LoadSettled (Response true (Some zero_id_record)); Click 1] H0).
Defined.

(** A record whose id is 0 is loaded and shown, yet cannot be submitted. *)
Example zero_id_cannot_be_submitted :
  displayed (run blank_page [LoadSettled (Response true (Some zero_id_record))])
  = [lit "The"; lit "cat"; lit "sat"]
  /\ markGood (run blank_page [LoadSettled (Response true (Some zero_id_record))])
     = AlertNoSentence.
Proof. vm_compute. by split. Qed.

(** * Submitting and feedback *)

Lemma markGood_disabled_step pg e :
  markGood_disabled pg = false -> markGood_disabled (step pg e) = false.
Proof.
  intros H. destruct e as [p| | |t| | | |r|r|]; cbn [step]; try done.
  - destruct (click_shape pg p) as (h & u & -> & _). done.
  - destruct (undoRedact_shape pg) as (h & u & -> & _). done.
  - unfold saveEdit. by rewrite renderEditableSentence_eq.
  - unfold useOriginal. by rewrite renderEditableSentence_eq.
  - by destruct r as [|[] [[]|]].
  - destruct r as [|[] [data|]]; try done. cbn [loadNextSentence_settled].
    unfold loadNextSentence_loaded. rewrite editable_of_nonempty.
    by rewrite renderEditableSentence_eq.
Qed.

(** X9: the script never disables the submit button: enabled at the start
    of a session, it is enabled after every event of it.  A submit that
    succeeds shows the success message and sets the button's flag to false
    again; tokens, stack and current id are as they were, so nothing
    prevents submitting once more, and [markGood] then sends what it sent
    before. *)
Theorem submit_is_never_blocked (pg0 : page) (evs : list event) :
  markGood_disabled pg0 = false ->
  let pg := run pg0 evs in
  let after := run pg [MarkGoodButton; MarkGoodSettled (Response true (Some tt))] in
  markGood_disabled pg = false
  /\ markGood_disabled after = false
  /\ feedback_message after = Feedback MARKED_GOOD DisplayBlock
  /\ tokens after = tokens pg
  /\ undoStack after = undoStack pg
  /\ markGood after = markGood pg.
Proof.
  intros H pg after.
  assert (Hpg : markGood_disabled pg = false).
  { unfold pg. clear after pg. revert pg0 H.
    induction evs as [|e evs IH]; intros pg0 H; [done|].
    simpl. by apply IH, markGood_disabled_step. }
  split; [exact Hpg|]. by repeat split.
Qed.

Lemma submit_is_never_blocked_witness :
  markGood_disabled blank_page = false
  /\ markGood_disabled
       (run blank_page
          [LoadSettled (Response true (Some sample_record)); Click 1]) = false.
Proof.
  assert (H : markGood_disabled blank_page = false) by reflexivity.
  split; [exact H|].
  exact (proj1 (submit_is_never_blocked blank_page
                  [LoadSettled (Response true (Some sample_record)); Click 1] H)).
Defined.

Lemma feedback_step pg e :
  feedback_message (step pg e)
  = if writes_feedback e then feedback_of e else feedback_message pg.
Proof.
  destruct e as [p| | |t| | | |r|r|]; cbn [step writes_feedback feedback_of];
    try done.
  - destruct (click_shape pg p) as (h & u & -> & _). done.
  - destruct (undoRedact_shape pg) as (h & u & -> & _). done.
  - unfold saveEdit. by rewrite renderEditableSentence_eq.
  - by destruct r as [|[] [[]|]].
  - destruct r as [|[] [data|]]; try done. cbn [loadNextSentence_settled].
    unfold loadNextSentence_loaded. rewrite editable_of_nonempty.
    by rewrite renderEditableSentence_eq.
Qed.

Lemma feedback_run evs : forall pg,
  Forall (fun e => writes_feedback e = false) evs ->
  feedback_message (run pg evs) = feedback_message pg.
Proof.
  induction evs as [|e evs IH]; intros pg Hall; [done|].
  inversion Hall as [|? ? He Hrest]; subst. simpl. rewrite IH by done.
  by rewrite feedback_step, He.
Qed.

(** X10: the feedback on the page is the one the last settled submit, revert
    or [clearFeedback] wrote; loads, saves, clicks and undos leave it as it
    is.  So the outcome of a submit stays on display when the next sentence
    is loaded. *)
Theorem feedback_stays_until_rewritten
    (pg : page) (e : event) (evs : list event) :
  writes_feedback e = true ->
  Forall (fun e' => writes_feedback e' = false) evs ->
  feedback_message (run pg (e :: evs)) = feedback_of e.
Proof.
  intros He Hevs. cbn [run fold_left].
  change (fold_left step evs ?p) with (run p evs).
  rewrite feedback_run by done. by rewrite feedback_step, He.
Qed.

Lemma feedback_stays_until_rewritten_witness :
  writes_feedback (MarkGoodSettled (Response true (Some tt))) = true
  /\ Forall (fun e' => writes_feedback e' = false)
       [LoadSettled (Response true (Some sample_record)); Click 0]
  /\ feedback_message
       (run blank_page
          [MarkGoodSettled (Response true (Some tt));
           LoadSettled (Response true (Some sample_record)); Click 0])
     = feedback_of (MarkGoodSettled (Response true (Some tt))).
Proof.
  assert (H1 : writes_feedback (MarkGoodSettled (Response true (Some tt))) = true)
    by reflexivity.
  assert (H2 : Forall (fun e' => writes_feedback e' = false)
                 [LoadSettled (Response true (Some sample_record)); Click 0])
    by (repeat constructor).
  split; [exact H1|]. split; [exact H2|].
  exact (feedback_stays_until_rewritten blank_page _ _ H1 H2).
Defined.

(** X11: a load that fails (transport error, response not ok, body not
    JSON) leaves the page as it was, redactions and undo stack included:
    the session goes on as if the load had not been attempted. *)
Theorem failed_load_changes_nothing
    (pg : page) (evs1 evs2 : list event) (r : fetch_result SentenceRecord) :
  failed r = true ->
  run pg (evs1 ++ LoadSettled r :: evs2) = run pg (evs1 ++ evs2).
Proof.
  intros Hr. rewrite !run_app.
  change (run (run pg evs1) (LoadSettled r :: evs2))
    with (run (loadNextSentence_settled r (run pg evs1)) evs2).
  by destruct r as [|[] [data|]].
Qed.

Lemma failed_load_changes_nothing_witness :
  failed (Response (A:=SentenceRecord) false None) = true
  /\ run sample_page ([Click 1] ++ LoadSettled (Response false None) :: [UndoButton])
     = run sample_page ([Click 1] ++ [UndoButton]).
Proof.
  assert (H : failed (Response (A:=SentenceRecord) false None) = true)
    by reflexivity.
  split; [exact H|].
  exact (failed_load_changes_nothing sample_page [Click 1] [UndoButton] _ H).
Defined.

(** * Blank text *)

Lemma trim_start_blank s :
  Forall (fun c => is_white_space c = true) s -> trim_start s = [].
Proof. induction 1 as [|c s Hc _ IH]; [done|]. simpl. by rewrite Hc. Qed.

Lemma trim_blank s :
  Forall (fun c => is_white_space c = true) s -> trim s = [].
Proof. intros H. unfold trim. by rewrite trim_start_blank. Qed.

(** X14: committing a text made of white space only (the empty text
    included) leaves one token, empty and not redacted.  That token can be
    clicked like any other: the marker then stands for a word that was never
    there, and it is what [editSentence] and [markGood] read back. *)
Theorem blank_commit_leaves_one_empty_token (pg : page) (txt : jsstring) :
  Forall (fun c => is_white_space c = true) txt ->
  let committed := run pg [TypeText txt; SaveButton] in
  tokens committed = [{| position := 0; text := []; redacted := false |}]
  /\ container_text committed = []
  /\ displayed (run committed [Click 0]) = [REDACT]
  /\ container_text (run committed [Click 0]) = REDACT
  /\ displayed (run committed [Click 0; UndoButton]) = [[]].
Proof.
  intros Hblank committed.
  assert (Hc : consistent committed).
  { unfold committed. cbn [run fold_left].
    by apply (consistent_rebuilt _ SaveButton). }
  assert (Hi : interleaved committed).
  { unfold committed. cbn [run fold_left].
    apply (interleaved_step _ SaveButton). by right. }
  assert (Ht : tokens committed
               = [{| position := 0; text := []; redacted := false |}]).
  { unfold committed. cbn [run fold_left step]. unfold saveEdit.
    cbn [sentence_edit set_sentence_edit].
    etransitivity; [apply (tokens_render _ _)|].
    by rewrite (trim_blank txt Hblank). }
  assert (Hu : is_unredacted committed 0 = true)
    by (unfold is_unredacted; by rewrite Ht).
  assert (Hd : displayed (click 0 committed) = [REDACT]).
  { apply list_eq. intros [|p].
    - by rewrite displayed_lookup, (tokens_click_hit _ 0 Hc Hu).
    - rewrite displayed_lookup, tokens_click_other by done. by rewrite Ht. }
  split; [done|]. split.
  { rewrite (container_text_interleaved _ Hi). unfold displayed. by rewrite Ht. }
  split; [done|]. split.
  { cbn [run fold_left step].
    rewrite (container_text_interleaved (click 0 committed)), Hd.
    - by vm_compute.
    - destruct (click_shape committed 0) as (h & u & E & _).
      eapply interleaved_same; [|exact Hi]. by rewrite E. }
  cbn [run fold_left step]. rewrite (undo_click _ 0 Hc Hu).
  unfold displayed. by rewrite Ht.
Qed.

Lemma blank_commit_leaves_one_empty_token_witness :
  Forall (fun c => is_white_space c = true) (lit "  ")
  /\ tokens (run sample_page [TypeText (lit "  "); SaveButton])
     = [{| position := 0; text := []; redacted := false |}].
Proof.
  assert (H : Forall (fun c => is_white_space c = true) (lit "  "))
    by (repeat constructor).
  split; [exact H|].
  exact (proj1 (blank_commit_leaves_one_empty_token sample_page (lit "  ") H)).
Defined.

(** * Editing without changing the text *)














